(** * Xen message channels (python/xen/channel.py)

    A shallow embedding of the [Channel] class of [channel.py]: the
    frame encoder ([send_format] and the sends built on it), the serial
    counter, the incremental frame decoder ([_receive]) and the job queue.

    Conventions of the embedding:
    - a Python [str] is a [text]: the list of its code points, as [Z];
    - a Python [bytes] object is a [list Z] of values in [0, 255];
    - a Python [int] is a [Z] (Python integers are unbounded);
    - the channel uses its default encoding [ENCODING = "utf-8"];
    - the transport is the loopback-free analogue of the [FakeSocket] of the
      module's demo: [send] appends to [written], [recv n] takes the first
      [n] bytes of [incoming];
    - Python exceptions are the constructors of [exn]; methods run in the
      state-exception monad [M], where mutations made before an exception
      is raised are kept, as in Python. *)

From Stdlib Require Import String Ascii ZArith List Bool Lia Decimal DecimalZ Sorted.
Import ListNotations.
Open Scope Z_scope.

(* ------------------------------------------------------------------------ *)
(** ** Python values and texts *)

Definition text := list Z.
Definition bytes := list Z.

(** Text literal: the code points of an ASCII Rocq string. *)
Definition u (s : string) : text :=
  map (fun a => Z.of_nat (nat_of_ascii a)) (list_ascii_of_string s).

(** The Python values that reach [send_format]. [bool] is a subclass of
    [int] in Python, so [isinstance(True, int)] holds. *)
Inductive pyval : Type :=
| VStr (s : text)
| VInt (z : Z)
| VBool (b : bool)
| VBytes (b : bytes)
| VNone.

Definition isinstance_str (v : pyval) : bool :=
  match v with VStr _ => true | _ => false end.

Definition isinstance_int (v : pyval) : bool :=
  match v with VInt _ | VBool _ => true | _ => false end.

(** Python exceptions raised by the code. *)
Inductive exn : Type :=
| BadMessage (reason : string)
| TypeError (msg : string)
| ValueError
| UnicodeEncodeError
| UnicodeDecodeError
| AttributeError (attr : string).

(* ------------------------------------------------------------------------ *)
(** ** Python slicing and [str.find] *)

(** Normalisation of a slice bound, as Python does it: negative indices
    count from the end, and bounds are clamped to [0, len]. *)
Definition slice_index (len i : Z) : Z :=
  if i <? 0 then Z.max 0 (len + i) else Z.min i len.

(** [l[lo:hi]] *)
Definition py_slice {A} (l : list A) (lo hi : Z) : list A :=
  let n := Z.of_nat (length l) in
  let lo' := slice_index n lo in
  let hi' := slice_index n hi in
  firstn (Z.to_nat (hi' - lo')) (skipn (Z.to_nat lo') l).

(** [l[lo:]] *)
Definition py_slice_from {A} (l : list A) (lo : Z) : list A :=
  py_slice l lo (Z.of_nat (length l)).

(** Index of the first occurrence of [c] in [l] at or after position [i]. *)
Fixpoint find_from (c : Z) (l : list Z) (i : Z) : Z :=
  match l with
  | [] => -1
  | x :: l' => if x =? c then i else find_from c l' (i + 1)
  end.

(** [s.find(c, start)] for a one-character needle [c]. *)
Definition py_find (s : text) (c : Z) (start : Z) : Z :=
  let st := slice_index (Z.of_nat (length s)) start in
  find_from c (skipn (Z.to_nat st) s) st.

(* ------------------------------------------------------------------------ *)
(** ** [str(n)] and [int(s, base=10)] *)

Fixpoint uint_chars (d : uint) : text :=
  match d with
  | Nil => []
  | D0 d => 48 :: uint_chars d | D1 d => 49 :: uint_chars d
  | D2 d => 50 :: uint_chars d | D3 d => 51 :: uint_chars d
  | D4 d => 52 :: uint_chars d | D5 d => 53 :: uint_chars d
  | D6 d => 54 :: uint_chars d | D7 d => 55 :: uint_chars d
  | D8 d => 56 :: uint_chars d | D9 d => 57 :: uint_chars d
  end.

(** [str(n)] for a Python [int], before the length check: decimal digits,
    with a leading ['-'] for negative numbers. *)
Definition py_str_int (n : Z) : text :=
  match Z.to_int n with
  | Pos d => uint_chars d
  | Neg d => 45 :: uint_chars d
  end.

Definition is_digit (c : Z) : bool := (48 <=? c) && (c <=? 57).

(** The number of ASCII digits of a text: signs and underscores are not
    counted. *)
Definition count_digits (l : text) : Z := Z.of_nat (length (filter is_digit l)).

(** [sys.get_int_max_str_digits()], 4300 unless the program changes it. *)
Definition int_max_str_digits : Z := 4300.

(** [str(n)] for a Python [int]: [None] is the [ValueError] CPython raises
    when the text would have more than [int_max_str_digits] digits, the sign
    not counted. *)
Definition py_str (n : Z) : option text :=
  let s := py_str_int n in
  if int_max_str_digits <? count_digits s then None else Some s.

(** [str(v)] for the values [isinstance(v, int)] accepts; [None] is
    [ValueError]. *)
Definition py_str_intlike (v : pyval) : option text :=
  match v with
  | VInt n => py_str n
  | VBool true => Some (u "True")
  | VBool false => Some (u "False")
  | _ => Some []
  end.

(** [Py_UNICODE_ISSPACE]: the characters [str.isspace] accepts. *)
Definition is_space (c : Z) : bool :=
  ((9 <=? c) && (c <=? 13)) || ((28 <=? c) && (c <=? 32)) ||
  (c =? 133) || (c =? 160) || (c =? 5760) ||
  ((8192 <=? c) && (c <=? 8202)) || (c =? 8232) || (c =? 8233) ||
  (c =? 8239) || (c =? 8287) || (c =? 12288).

(** [Py_ISSPACE]: the ASCII whitespace of [PyLong_FromString]. *)
Definition is_ascii_space (c : Z) : bool := ((9 <=? c) && (c <=? 13)) || (c =? 32).

(** The decimal digits of Unicode (general category Nd) come in runs of ten
    consecutive code points, of values 0 to 9.  These are the first code
    points of the runs, in the Unicode 14.0.0 database of CPython 3.11. *)
Definition decimal_run_starts : list Z := [
  48; 1632; 1776; 1984; 2406; 2534; 2662; 2790; 2918; 3046; 3174; 3302;
  3430; 3558; 3664; 3792; 3872; 4160; 4240; 6112; 6160; 6470; 6608; 6784;
  6800; 6992; 7088; 7232; 7248; 42528; 43216; 43264; 43472; 43504; 43600;
  44016; 65296; 66720; 68912; 69734; 69872; 69942; 70096; 70384; 70736;
  70864; 71248; 71360; 71472; 71904; 72016; 72784; 73040; 73120; 92768;
  92864; 93008; 120782; 120792; 120802; 120812; 120822; 123200; 123632;
  125264; 130032].

Fixpoint run_digit (starts : list Z) (c : Z) : option Z :=
  match starts with
  | [] => None
  | s :: starts' =>
      if (s <=? c) && (c <? s + 10) then Some (c - s) else run_digit starts' c
  end.

(** [Py_UNICODE_TODECIMAL]; [None] is its [-1]. *)
Definition to_decimal (c : Z) : option Z := run_digit decimal_run_starts c.

(** [_PyUnicode_TransformDecimalAndSpaceToASCII], one character: characters
    below 127 are kept, other whitespace becomes [' '], other decimal digits
    their ASCII digit, and anything else ['?']. *)
Definition transform_char (c : Z) : Z :=
  if c <? 127 then c
  else if is_space c then 32
  else match to_decimal c with Some d => 48 + d | None => 63 end.

Fixpoint drop_spaces (l : text) : text :=
  match l with
  | c :: l' => if is_ascii_space c then drop_spaces l' else l
  | [] => []
  end.

Definition strip (l : text) : text :=
  List.rev (drop_spaces (List.rev (drop_spaces l))).

(** Digits with single underscores between them, accumulated as
    [10 * acc + digit]; [us] records that the previous character was an
    underscore. *)
Fixpoint int_digits (acc : Z) (us : bool) (l : text) : option Z :=
  match l with
  | [] => if us then None else Some acc
  | c :: l' =>
      if is_digit c then int_digits (10 * acc + (c - 48)) false l'
      else if (c =? 95) && negb us then int_digits acc true l'
      else None
  end.

Definition int_unsigned (l : text) : option Z :=
  match l with
  | c :: l' => if is_digit c then int_digits (c - 48) false l' else None
  | [] => None
  end.

(** The optional sign of [PyLong_FromString]. *)
Definition int_sign (l : text) : Z * text :=
  match l with
  | c :: l' => if c =? 45 then (-1, l') else if c =? 43 then (1, l') else (1, l)
  | [] => (1, [])
  end.

(** [int(s, base=10)] on a [str] ([PyLong_FromUnicodeObject]): the text is
    transformed to ASCII, then [PyLong_FromString] skips ASCII whitespace
    around an optional sign and the digits.  [None] is the [ValueError] of
    Python: the text is not an integer literal, or its literal has more than
    [int_max_str_digits] digits. *)
Definition py_int10 (s : text) : option Z :=
  let '(sign, l) := int_sign (strip (map transform_char s)) in
  match int_unsigned l with
  | Some v => if int_max_str_digits <? count_digits l then None else Some (sign * v)
  | None => None
  end.

(* ------------------------------------------------------------------------ *)
(** ** The codecs: strict UTF-8 and ASCII *)

Definition is_cont (b : Z) : bool := (128 <=? b) && (b <=? 191).

(** [str.encode("utf-8")] of one code point; lone surrogates are refused
    ("surrogates not allowed"). *)
Definition utf8_encode_cp (c : Z) : option bytes :=
  if c <? 0 then None
  else if c <? 128 then Some [c]
  else if c <? 2048 then Some [192 + c / 64; 128 + c mod 64]
  else if (55296 <=? c) && (c <=? 57343) then None
  else if c <? 65536 then
    Some [224 + c / 4096; 128 + (c / 64) mod 64; 128 + c mod 64]
  else if c <? 1114112 then
    Some [240 + c / 262144; 128 + (c / 4096) mod 64;
          128 + (c / 64) mod 64; 128 + c mod 64]
  else None.

Fixpoint utf8_encode (s : text) : option bytes :=
  match s with
  | [] => Some []
  | c :: s' =>
      match utf8_encode_cp c, utf8_encode s' with
      | Some b, Some bs => Some (b ++ bs)
      | _, _ => None
      end
  end.

(** [bytes.decode("utf-8")], strict: overlong forms, surrogates, code points
    above [0x10FFFF] and truncated sequences are refused. *)
Fixpoint utf8_decode (bs : bytes) : option text :=
  match bs with
  | [] => Some []
  | b0 :: r0 =>
      if b0 <? 128 then option_map (cons b0) (utf8_decode r0)
      else if (192 <=? b0) && (b0 <=? 223) then
        match r0 with
        | b1 :: r1 =>
            let c := (b0 - 192) * 64 + (b1 - 128) in
            if is_cont b1 && (128 <=? c)
            then option_map (cons c) (utf8_decode r1) else None
        | [] => None
        end
      else if (224 <=? b0) && (b0 <=? 239) then
        match r0 with
        | b1 :: b2 :: r2 =>
            let c := (b0 - 224) * 4096 + (b1 - 128) * 64 + (b2 - 128) in
            if is_cont b1 && is_cont b2 && (2048 <=? c) &&
               negb ((55296 <=? c) && (c <=? 57343))
            then option_map (cons c) (utf8_decode r2) else None
        | _ => None
        end
      else if (240 <=? b0) && (b0 <=? 247) then
        match r0 with
        | b1 :: b2 :: b3 :: r3 =>
            let c := (b0 - 240) * 262144 + (b1 - 128) * 4096 +
                     (b2 - 128) * 64 + (b3 - 128) in
            if is_cont b1 && is_cont b2 && is_cont b3 &&
               (65536 <=? c) && (c <=? 1114111)
            then option_map (cons c) (utf8_decode r3) else None
        | _ => None
        end
      else None
  end.

(** [str.encode("ascii")]. *)
Definition ascii_encode (s : text) : option bytes :=
  if forallb (fun c => (0 <=? c) && (c <? 128)) s then Some s else None.

(* ------------------------------------------------------------------------ *)
(** ** Channel state *)

(** A decoded message, the tuple [(cat, num, msg)] pushed on the job queue. *)
Definition job : Type := (text * Z * text)%type.

(** The transport: bytes sent to the peer, and bytes sent by the peer that
    [recv] has not returned yet. *)
Record socket := mkSocket { written : bytes; incoming : bytes }.

(** The instance variables of [Channel] used by the code under study:
    [_cnt], [_io], [_buf], [_off], [_siz] and [_jobs] (the deque, oldest
    first).  [_enc] is fixed to the default ["utf-8"]; [_cbk] is never
    called by the channel itself. *)
Record channel := mkChannel {
  cnt : Z; io : socket; buf : bytes; off : Z; siz : Z; jobs : list job }.

Definition set_cnt (n : Z) (st : channel) : channel :=
  mkChannel n (io st) (buf st) (off st) (siz st) (jobs st).
Definition set_io (s : socket) (st : channel) : channel :=
  mkChannel (cnt st) s (buf st) (off st) (siz st) (jobs st).
Definition set_buf (b : bytes) (st : channel) : channel :=
  mkChannel (cnt st) (io st) b (off st) (siz st) (jobs st).
Definition set_off (o : Z) (st : channel) : channel :=
  mkChannel (cnt st) (io st) (buf st) o (siz st) (jobs st).
Definition set_siz (s : Z) (st : channel) : channel :=
  mkChannel (cnt st) (io st) (buf st) (off st) s (jobs st).
Definition set_jobs (j : list job) (st : channel) : channel :=
  mkChannel (cnt st) (io st) (buf st) (off st) (siz st) j.

(** [Channel(io)]: [_cnt = 0], [_buf = b""], [_off = 0], [_siz = -1],
    empty job queue. *)
Definition new_channel (s : socket) : channel := mkChannel 0 s [] 0 (-1) [].

(* ------------------------------------------------------------------------ *)
(** ** The state-exception monad *)

Inductive result (A : Type) : Type :=
| Ok (a : A)
| Exc (e : exn).
Arguments Ok {A} a.
Arguments Exc {A} e.

Definition M (A : Type) : Type := channel -> channel * result A.

Definition ret {A} (a : A) : M A := fun st => (st, Ok a).
Definition raise {A} (e : exn) : M A := fun st => (st, Exc e).
Definition bind {A B} (m : M A) (k : A -> M B) : M B :=
  fun st => match m st with
            | (st', Ok a) => k a st'
            | (st', Exc e) => (st', Exc e)
            end.
Definition get : M channel := fun st => (st, Ok st).
Definition put (st : channel) : M unit := fun _ => (st, Ok tt).

(** [try: m except Exception as ex: h(ex)] *)
Definition try_except {A} (m : M A) (h : exn -> M A) : M A :=
  fun st => match m st with
            | (st', Exc e) => h e st'
            | r => r
            end.

Notation "x <- m ;; k" := (bind m (fun x => k))
  (at level 61, m at next level, right associativity).
Notation "m ;; k" := (bind m (fun _ : unit => k))
  (at level 61, right associativity).

Definition lift_option {A} (e : exn) (o : option A) : M A :=
  match o with Some a => ret a | None => raise e end.

(* ------------------------------------------------------------------------ *)
(** ** Transport primitives *)

Definition io_send (b : bytes) : M unit :=
  st <- get;;
  put (set_io (mkSocket (written (io st) ++ b) (incoming (io st))) st).

Definition io_flush : M unit := ret tt.

Definition io_recv (n : Z) : M bytes :=
  st <- get;;
  let inc := incoming (io st) in
  put (set_io (mkSocket (written (io st)) (skipn (Z.to_nat n) inc)) st);;
  ret (firstn (Z.to_nat n) inc).

(** Bytes sent by the peer reach the transport. *)
Definition arrive (c : bytes) : M unit :=
  st <- get;;
  put (set_io (mkSocket (written (io st)) (incoming (io st) ++ c)) st).

(* ------------------------------------------------------------------------ *)
(** ** Sending *)

Definition str_val (v : pyval) : text :=
  match v with VStr s => s | _ => [] end.

Definition len {A} (l : list A) : Z := Z.of_nat (length l).

(** [Channel.send_format] *)
Definition send_format (cat num msg : pyval) : M unit :=
  if negb (isinstance_str cat) then raise (TypeError "category must be a string")
  else if negb (isinstance_int num) then
    raise (TypeError "serial number must be an integer")
  else if negb (isinstance_str msg) then raise (TypeError "message must be a string")
  else
    s <- lift_option ValueError (py_str_intlike num);;
    b <- lift_option UnicodeEncodeError
           (utf8_encode (str_val cat ++ u":" ++ s ++ u":" ++ str_val msg));;
    (* [str(len(buf))]: a length is at most [sys.maxsize], whose text has 19
       digits, far below the limit of [str]. *)
    h <- lift_option UnicodeEncodeError
           (ascii_encode (u"@" ++ py_str_int (len b) ++ u":"));;
    io_send h;;
    io_send b;;
    io_flush.

(** [Channel.send_serial] *)
Definition send_serial (cat msg : pyval) : M Z :=
  st <- get;;
  put (set_cnt (cnt st + 1) st);;
  st <- get;;
  send_format cat (VInt (cnt st)) msg;;
  st <- get;;
  ret (cnt st).

Definition send_command (cmd : pyval) : M Z := send_serial (VStr (u"CMD")) cmd.
Definition send_event (evt : pyval) : M Z := send_serial (VStr (u"EVT")) evt.
Definition send_result (num val : pyval) : M unit := send_format (VStr (u"OK")) num val.
Definition send_error (num msg : pyval) : M unit := send_format (VStr (u"ERR")) num msg.

(* ------------------------------------------------------------------------ *)
(** ** The job queue *)

Definition push_job (j : job) : M unit :=
  st <- get;; put (set_jobs (jobs st ++ [j]) st).

Definition pop_job : M (option job) :=
  st <- get;;
  match jobs st with
  | [] => ret None
  | j :: js => put (set_jobs js st);; ret (Some j)
  end.

Definition more_jobs : M bool :=
  st <- get;; ret (1 <=? len (jobs st)).

(* ------------------------------------------------------------------------ *)
(** ** Receiving *)

Definition ZERO : Z := 48.
Definition NINE : Z := 57.
Definition SEPARATOR : Z := 58.
Definition BEGIN : Z := 64.

(** [self._buf[i]] for [0 <= i < len(self._buf)]. *)
Definition byte_at (b : bytes) (i : Z) : Z := nth (Z.to_nat i) b 0.

(** The drain loop of [_receive]: read chunks of [bufsiz] bytes and append
    them to [_buf] until a read returns fewer bytes.  Each read that does not
    stop the loop consumes [bufsiz] bytes of the transport, so
    [drain_fuel] iterations always reach the short read. *)
Fixpoint drain (fuel : nat) (bufsiz : Z) : M unit :=
  match fuel with
  | O => ret tt
  | S fuel' =>
      b <- io_recv bufsiz;;
      (if 0 <? len b then
         st <- get;;
         if 0 <? len (buf st) then put (set_buf (buf st ++ b) st)
         else put (set_buf b st)
       else ret tt);;
      if len b <? bufsiz then ret tt else drain fuel' bufsiz
  end.

Definition drain_fuel (st : channel) : nat := S (length (incoming (io st))).

Definition collect : M unit :=
  st <- get;; drain (drain_fuel st) 1024.

(** [for i in range(self._off + 1, bufsiz)] over the header digits: [n] is
    the number of indices left, [size] the value of the digits read so far. *)
Fixpoint scan_header (i : Z) (n : nat) (size : Z) : M unit :=
  match n with
  | O => ret tt
  | S n' =>
      st <- get;;
      let byte := byte_at (buf st) i in
      if (ZERO <=? byte) && (byte <=? NINE) then
        scan_header (i + 1) n' (10 * size + (byte - ZERO))
      else if byte =? SEPARATOR then
        if i <=? off st + 1 then raise (BadMessage "No size specified")
        else put (set_siz size (set_off (i + 1) st))
      else raise (BadMessage "Expecting digits or separator")
  end.

(** Lines 255-261: split [CAT:NUM:MSG]. *)
Definition split_message (msg : text) : M job :=
  let i1 := py_find msg SEPARATOR 0 in
  let i2 := if 0 <=? i1 then py_find msg SEPARATOR (i1 + 1) else -1 in
  if i2 <? i1 + 2 then raise (BadMessage "Expecting CAT:NUM:MSG")
  else
    let cat := py_slice msg 0 i1 in
    num <- lift_option ValueError (py_int10 (py_slice msg (i1 + 1) i2));;
    ret (cat, num, py_slice_from msg (i2 + 1)).

(** The [while True] loop of [_receive]; it returns [consumed].  Every
    iteration that does not leave the loop moves [_off] forward by at least
    one byte without passing [bufsiz], so [S (length _buf)] iterations always
    reach a [break] or an exception. *)
Fixpoint receive_loop (fuel : nat) (bufsiz consumed : Z) : M Z :=
  match fuel with
  | O => ret consumed
  | S fuel' =>
      let contents :=
        st <- get;;
        if bufsiz <? off st + siz st then ret consumed
        else
          msg <- (if 0 <? siz st then
                    lift_option UnicodeDecodeError
                      (utf8_decode (py_slice (buf st) (off st) (off st + siz st)))
                  else ret []);;
          st <- get;;
          put (set_siz (-1) (set_off (off st + siz st) st));;
          st <- get;;
          let consumed := off st in
          j <- split_message msg;;
          push_job j;;
          receive_loop fuel' bufsiz consumed in
      st <- get;;
      if siz st <? 0 then
        (if off st <? bufsiz then
           if byte_at (buf st) (off st) =? BEGIN then
             scan_header (off st + 1) (Z.to_nat (bufsiz - (off st + 1))) 0
           else raise (BadMessage "Missing begin message marker")
         else ret tt);;
        st <- get;;
        if siz st <? 0 then ret consumed else contents
      else contents
  end.

(** Drop the consumed bytes of the buffer. *)
Definition compact (consumed : Z) : M unit :=
  if 0 <? consumed then
    st <- get;;
    put (set_off (off st - consumed) (set_buf (py_slice_from (buf st) consumed) st))
  else ret tt.

(** Everything after the drain loop, inside the [try] block. *)
Definition process_pending : M unit :=
  st <- get;;
  let bufsiz := len (buf st) in
  consumed <- receive_loop (S (length (buf st))) bufsiz 0;;
  compact consumed.

(** The attributes of a [Channel] instance: the methods of the class and the
    instance variables set by [__init__]. *)
Definition channel_attributes : list string :=
  ["__init__"; "get_processor"; "set_processor"; "_default_processor";
   "get_encoding"; "set_encoding"; "send_command"; "send_event";
   "send_result"; "send_error"; "send_serial"; "send_format"; "_receive";
   "push_job"; "pop_job"; "more_jobs";
   "_cnt"; "_enc"; "_io"; "_buf"; "_off"; "_siz"; "_jobs"; "_cbk"]%string.

(** [self.disconnect()]: the lookup of [disconnect] on the instance. *)
Definition call_disconnect : M unit :=
  if existsb (String.eqb "disconnect") channel_attributes then ret tt
  else raise (AttributeError "disconnect").

(** [Channel._receive] *)
Definition receive : M unit :=
  try_except (collect;; process_pending)
             (fun ex => call_disconnect;; raise ex).

(** A receive trigger: the peer's bytes [c] arrive, then [_receive] runs. *)
Definition trigger (c : bytes) : M unit := arrive c;; receive.

(** One receive trigger per chunk, in order. *)
Fixpoint triggers (cs : list bytes) : M unit :=
  match cs with
  | [] => ret tt
  | c :: cs' => trigger c;; triggers cs'
  end.

(* ------------------------------------------------------------------------ *)
(** ** Well-formed messages and their frames *)

(** A code point that UTF-8 can encode: in range and not a surrogate. *)
Definition valid_cp (c : Z) : bool :=
  (0 <=? c) && (c <=? 1114111) && negb ((55296 <=? c) && (c <=? 57343)).

(** A message the round trip is about: text that UTF-8 can encode, a
    category without the separator [':'], and a serial whose decimal text
    has at most [int_max_str_digits] digits, so that [str] and [int] accept
    it ([abs(num) < 10 ** 4300], lemma [str_digits_bound]). *)
Definition wf_job (j : job) : bool :=
  let '(cat, num, msg) := j in
  forallb valid_cp cat && negb (existsb (Z.eqb SEPARATOR) cat) &&
  (count_digits (py_str_int num) <=? int_max_str_digits) &&
  forallb valid_cp msg.

(** The text [cat + ":" + str(num) + ":" + msg] that [send_format] encodes. *)
Definition body_text (j : job) : text :=
  let '(cat, num, msg) := j in cat ++ u":" ++ py_str_int num ++ u":" ++ msg.

Definition body_bytes (j : job) : bytes :=
  match utf8_encode (body_text j) with Some b => b | None => [] end.

Definition header_bytes (j : job) : bytes :=
  u"@" ++ py_str_int (len (body_bytes j)) ++ u":".

(** The two writes of [send_format] for the message [j]. *)
Definition frame_bytes (j : job) : bytes := header_bytes j ++ body_bytes j.

Definition frames_bytes (js : list job) : bytes := concat (map frame_bytes js).

(** A decoder with nothing buffered and nothing waiting on the transport. *)
Definition idle (st : channel) : Prop :=
  buf st = [] /\ off st = 0 /\ siz st = -1 /\ incoming (io st) = [].

(** The value [size] reaches in the header loop after the digits [ds]. *)
Definition digits_value (acc : Z) (ds : list Z) : Z :=
  fold_left (fun a c => 10 * a + (c - ZERO)) ds acc.

(** The decoder's cursor while the bytes [p] of the frame of [f] are buffered
    and the frame is not complete: [(_off, _siz)] is [(0, -1)] while the
    header is incomplete, and points at the body once it is parsed. *)
Definition partial_off (f : job) (p : bytes) : Z :=
  if len p <? len (header_bytes f) then 0 else len (header_bytes f).

Definition partial_siz (f : job) (p : bytes) : Z :=
  if len p <? len (header_bytes f) then -1 else len (body_bytes f).

(** The same, for the frames [fs] still expected. *)
Definition pending_off (fs : list job) (p : bytes) : Z :=
  match fs with [] => 0 | f :: _ => partial_off f p end.

Definition pending_siz (fs : list job) (p : bytes) : Z :=
  match fs with [] => -1 | f :: _ => partial_siz f p end.

(** [p] is the part received so far of the frames [fs]: empty when nothing
    is expected, a strict prefix of the next frame otherwise. *)
Definition pending_ok (fs : list job) (p : bytes) : Prop :=
  match fs with
  | [] => p = []
  | f :: _ => exists q, q <> [] /\ p ++ q = frame_bytes f
  end.

(** The decoder state between two receive triggers: [p] buffered from the
    frames [fs], [js] queued. *)
Definition decoder (n : Z) (s : socket) (fs : list job) (p : bytes) (js : list job)
  : channel :=
  mkChannel n s p (pending_off fs p) (pending_siz fs p) js.

(** What the receive loop may do to the state: [_cnt], the transport and
    [_buf] stay, the cursor only moves forward, jobs are only appended. *)
Definition grows (st st' : channel) : Prop :=
  cnt st' = cnt st /\ io st' = io st /\ buf st' = buf st /\ off st <= off st' /\
  exists extra, jobs st' = jobs st ++ extra.

(** A client of the channel: the public operations it may call, in any
    order, over the lifetime of the channel. *)
Inductive api_call : Type :=
| CallCommand (cmd : pyval)
| CallEvent (evt : pyval)
| CallSerial (cat msg : pyval)
| CallResult (num val : pyval)
| CallError (num msg : pyval)
| CallFormat (cat num msg : pyval)
| CallTrigger (c : bytes)
| CallPopJob.

(** One call; [Some n] is the serial number an auto-numbered send returns. *)
Definition run_call (a : api_call) : M (option Z) :=
  match a with
  | CallCommand v => n <- send_command v;; ret (Some n)
  | CallEvent v => n <- send_event v;; ret (Some n)
  | CallSerial cat v => n <- send_serial cat v;; ret (Some n)
  | CallResult num v => send_result num v;; ret None
  | CallError num v => send_error num v;; ret None
  | CallFormat cat num v => send_format cat num v;; ret None
  | CallTrigger c => trigger c;; ret None
  | CallPopJob => _ <- pop_job;; ret None
  end.

(** The serial numbers returned by the calls [cs], in order.  A call that
    raises returns nothing; the client catches the exception and goes on
    with the channel in the state the exception left. *)
Fixpoint run_calls (cs : list api_call) (st : channel) : list Z :=
  match cs with
  | [] => []
  | a :: cs' =>
      let (st', r) := run_call a st in
      match r with
      | Ok (Some n) => n :: run_calls cs' st'
      | _ => run_calls cs' st'
      end
  end.

(** The module's demo, lines 329-331:
    [while chn.more_jobs(): job = chn.pop_job(); print(job)].
    The result is the list of values printed; [fuel] bounds the
    iterations of the [while] loop. *)
Fixpoint print_jobs (fuel : nat) : M (list (option job)) :=
  match fuel with
  | O => ret []
  | S fuel' =>
      b <- more_jobs;;
      if b then
        job <- pop_job;;
        rest <- print_jobs fuel';;
        ret (job :: rest)
      else ret []
  end.

(** A sender that calls [send_format(cat, num, msg)] for each message of
    [js], in order. *)
Fixpoint send_jobs (js : list job) : M unit :=
  match js with
  | [] => ret tt
  | (cat, num, msg) :: js' => send_format (VStr cat) (VInt num) (VStr msg);; send_jobs js'
  end.

(* ------------------------------------------------------------------------ *)
(** ** Proof tools *)

Ltac zbool :=
  repeat match goal with
  | |- context [Z.ltb ?a ?b] =>
      first [ rewrite (proj2 (Z.ltb_lt a b)) by lia
            | rewrite (proj2 (Z.ltb_ge a b)) by lia ]
  | |- context [Z.leb ?a ?b] =>
      first [ rewrite (proj2 (Z.leb_le a b)) by lia
            | rewrite (proj2 (Z.leb_gt a b)) by lia ]
  | |- context [Z.eqb ?a ?b] =>
      first [ rewrite (proj2 (Z.eqb_eq a b)) by lia
            | rewrite (proj2 (Z.eqb_neq a b)) by lia ]
  end.

Lemma bind_ok {A B} (m : M A) (k : A -> M B) st st' a :
  m st = (st', Ok a) -> bind m k st = k a st'.
Proof. unfold bind. intros ->. reflexivity. Qed.

Lemma bind_exc {A B} (m : M A) (k : A -> M B) st st' e :
  m st = (st', Exc e) -> bind m k st = (st', Exc e).
Proof. unfold bind. intros ->. reflexivity. Qed.

Lemma bind_get {B} (k : channel -> M B) st : bind get k st = k st st.
Proof. reflexivity. Qed.

Lemma bind_ret {A B} (a : A) (k : A -> M B) st : bind (ret a) k st = k a st.
Proof. reflexivity. Qed.

Lemma bind_put {B} (s : channel) (k : unit -> M B) st : bind (put s) k st = k tt s.
Proof. reflexivity. Qed.

(** Run the monadic plumbing of a definition applied to a state. *)
Ltac mrun := repeat (rewrite ?bind_get, ?bind_ret, ?bind_put; cbv beta).

Lemma len_app {A} (l1 l2 : list A) : len (l1 ++ l2) = len l1 + len l2.
Proof. unfold len. rewrite length_app. lia. Qed.

Lemma len_cons {A} (x : A) l : len (x :: l) = 1 + len l.
Proof. unfold len. simpl length. lia. Qed.

Lemma len_nonneg {A} (l : list A) : 0 <= len l.
Proof. unfold len. lia. Qed.

(* ------------------------------------------------------------------------ *)
(** ** UTF-8 round trip *)

Lemma div_mod_64 (c : Z) : c = 64 * (c / 64) + c mod 64 /\ 0 <= c mod 64 < 64.
Proof.
  split; [apply Z.div_mod; lia | apply Z.mod_pos_bound; lia].
Qed.

Lemma utf8_cp_roundtrip (c : Z) :
  valid_cp c = true ->
  exists b, utf8_encode_cp c = Some b /\ b <> [] /\
    forall r, utf8_decode (b ++ r) = option_map (cons c) (utf8_decode r).
Proof.
  unfold valid_cp. intros H.
  apply andb_prop in H as [H H3]. apply andb_prop in H as [H1 H2].
  apply Z.leb_le in H1. apply Z.leb_le in H2. apply negb_true_iff in H3.
  unfold utf8_encode_cp.
  assert (Hq : c / 4096 = c / 64 / 64) by (rewrite Z.div_div by lia; reflexivity).
  assert (Hq' : c / 262144 = c / 64 / 64 / 64)
    by (rewrite !Z.div_div by lia; reflexivity).
  rewrite Hq, Hq'.
  destruct (div_mod_64 c) as [E0 B0].
  destruct (div_mod_64 (c / 64)) as [E1 B1].
  destruct (div_mod_64 (c / 64 / 64)) as [E2 B2].
  set (r0 := c mod 64) in *. set (q1 := c / 64) in *.
  set (r1 := q1 mod 64) in *. set (q2 := q1 / 64) in *.
  set (r2 := q2 mod 64) in *. set (q3 := q2 / 64) in *.
  destruct (Z.ltb_spec c 0); [lia|].
  destruct (Z.ltb_spec c 128).
  { eexists; repeat split; [discriminate|]. intros r.
    cbn [Datatypes.app utf8_decode]. zbool. reflexivity. }
  destruct (Z.ltb_spec c 2048).
  { eexists; repeat split; [discriminate|]. intros r.
    cbn [Datatypes.app utf8_decode]. unfold is_cont. zbool. cbn [andb].
    f_equal. f_equal. lia. }
  rewrite H3.
  destruct (Z.ltb_spec c 65536).
  { eexists; repeat split; [discriminate|]. intros r.
    cbn [Datatypes.app utf8_decode]. unfold is_cont. zbool.
    replace ((224 + q2 - 224) * 4096 + (128 + r1 - 128) * 64 + (128 + r0 - 128))
      with c by lia.
    rewrite H3. reflexivity. }
  destruct (Z.ltb_spec c 1114112); [|lia].
  eexists; repeat split; [discriminate|]. intros r.
  cbn [Datatypes.app utf8_decode]. unfold is_cont. zbool.
  replace ((240 + q3 - 240) * 262144 + (128 + r2 - 128) * 4096 +
           (128 + r1 - 128) * 64 + (128 + r0 - 128)) with c by lia.
  zbool. reflexivity.
Qed.

Lemma utf8_roundtrip (s : text) :
  forallb valid_cp s = true ->
  exists b, utf8_encode s = Some b /\ utf8_decode b = Some s /\
            (s <> [] -> b <> []).
Proof.
  induction s as [|c s IH]; simpl; intros H.
  - exists []. repeat split. intros []; reflexivity.
  - apply andb_prop in H as [Hc Hs].
    destruct (utf8_cp_roundtrip c Hc) as [bc [Ebc [Nbc Dbc]]].
    destruct (IH Hs) as [bs [Ebs [Dbs _]]].
    rewrite Ebc, Ebs. exists (bc ++ bs). repeat split.
    + rewrite Dbc, Dbs. reflexivity.
    + intros _. destruct bc; [contradiction | discriminate].
Qed.

(* ------------------------------------------------------------------------ *)
(** ** Decimal round trip: [int(str(n), 10) = n] *)

(** The value of a digit string, accumulated as the code does it. *)
Fixpoint uval (acc : Z) (d : uint) : Z :=
  match d with
  | Nil => acc
  | D0 d => uval (10 * acc + 0) d | D1 d => uval (10 * acc + 1) d
  | D2 d => uval (10 * acc + 2) d | D3 d => uval (10 * acc + 3) d
  | D4 d => uval (10 * acc + 4) d | D5 d => uval (10 * acc + 5) d
  | D6 d => uval (10 * acc + 6) d | D7 d => uval (10 * acc + 7) d
  | D8 d => uval (10 * acc + 8) d | D9 d => uval (10 * acc + 9) d
  end.

Lemma uval_pos (d : uint) (p : positive) :
  uval (Zpos p) d = Zpos (Pos.of_uint_acc d p).
Proof.
  revert p. induction d; intros p; cbn [uval Pos.of_uint_acc]; try reflexivity;
    rewrite <- IHd; apply (f_equal (fun x => uval x d)); lia.
Qed.

Lemma uval_of_uint (d : uint) : uval 0 d = Z.of_uint d.
Proof.
  unfold Z.of_uint. induction d; simpl; try reflexivity;
    try apply uval_pos. exact IHd.
Qed.

Lemma uint_chars_digits (d : uint) : forallb is_digit (uint_chars d) = true.
Proof. induction d; simpl; auto. Qed.

Lemma int_digits_uint (d : uint) (acc : Z) :
  int_digits acc false (uint_chars d) = Some (uval acc d).
Proof.
  revert acc. induction d; intros acc; simpl; try reflexivity;
    rewrite IHd; f_equal.
Qed.

Lemma int_unsigned_uint (d : uint) :
  d <> Nil -> int_unsigned (uint_chars d) = Some (Z.of_uint d).
Proof.
  intros Hd. rewrite <- uval_of_uint.
  destruct d; [contradiction| ..]; simpl; rewrite int_digits_uint; reflexivity.
Qed.

Lemma drop_spaces_id (l : text) :
  forallb (fun c => negb (is_ascii_space c)) l = true -> drop_spaces l = l.
Proof.
  destruct l as [|c l]; simpl; [reflexivity|].
  intros H. apply andb_prop in H as [H _].
  apply negb_true_iff in H. rewrite H. reflexivity.
Qed.

Lemma strip_id (l : text) :
  forallb (fun c => negb (is_ascii_space c)) l = true -> strip l = l.
Proof.
  intros H. unfold strip. rewrite (drop_spaces_id l H).
  rewrite drop_spaces_id. { apply rev_involutive. }
  apply forallb_forall. intros x Hx. apply in_rev in Hx.
  exact (proj1 (forallb_forall _ l) H x Hx).
Qed.

Lemma is_digit_range (c : Z) : is_digit c = true -> 48 <= c <= 57.
Proof.
  unfold is_digit. intros Hd. apply andb_prop in Hd as [H1 H2].
  apply Z.leb_le in H1. apply Z.leb_le in H2. lia.
Qed.

Lemma digits_not_space (l : text) :
  forallb is_digit l = true -> forallb (fun c => negb (is_ascii_space c)) l = true.
Proof.
  intros H. apply forallb_forall. intros x Hx.
  pose proof (is_digit_range x (proj1 (forallb_forall _ l) H x Hx)).
  unfold is_ascii_space. zbool. reflexivity.
Qed.

Lemma transform_digits (l : text) :
  forallb is_digit l = true -> map transform_char l = l.
Proof.
  induction l as [|c l IH]; simpl; [reflexivity|]. intros H.
  apply andb_prop in H as [Hc Hl]. pose proof (is_digit_range c Hc).
  rewrite (IH Hl). unfold transform_char. zbool. reflexivity.
Qed.

(** [int] reads back an unsigned digit text. *)
Lemma py_int10_unsigned (l : text) (v : Z) :
  forallb is_digit l = true -> int_unsigned l = Some v ->
  count_digits l <= int_max_str_digits -> py_int10 l = Some v.
Proof.
  intros Hd Hu Hc. unfold py_int10.
  rewrite transform_digits, strip_id by auto using digits_not_space.
  destruct l as [|c l']; [discriminate|].
  simpl in Hd. apply andb_prop in Hd as [Hc0 _]. pose proof (is_digit_range c Hc0).
  cbn [int_sign]. zbool. rewrite Hu. zbool. f_equal. lia.
Qed.

Lemma py_int10_str (n : Z) :
  count_digits (py_str_int n) <= int_max_str_digits -> py_int10 (py_str_int n) = Some n.
Proof.
  intros Hc. pose proof (DecimalZ.of_to n) as Hn.
  destruct n as [|p|p].
  - reflexivity.
  - pose proof (DecimalPos.Unsigned.to_uint_nonnil p) as Hnil.
    change (py_str_int (Z.pos p)) with (uint_chars (Pos.to_uint p)) in Hc |- *.
    apply py_int10_unsigned; [apply uint_chars_digits | | exact Hc].
    rewrite int_unsigned_uint by exact Hnil. exact (f_equal Some Hn).
  - pose proof (DecimalPos.Unsigned.to_uint_nonnil p) as Hnil.
    change (py_str_int (Z.neg p)) with (45 :: uint_chars (Pos.to_uint p)) in Hc |- *.
    unfold py_int10. pose proof (uint_chars_digits (Pos.to_uint p)) as Hd.
    cbn [map]. rewrite (transform_digits _ Hd).
    change (transform_char 45) with 45.
    rewrite strip_id by (cbn [forallb]; rewrite digits_not_space by exact Hd; reflexivity).
    cbn [int_sign]. change (45 =? 45) with true. cbv iota beta.
    rewrite int_unsigned_uint by exact Hnil.
    change (count_digits (45 :: uint_chars (Pos.to_uint p)))
      with (count_digits (uint_chars (Pos.to_uint p))) in Hc.
    zbool. f_equal. change (- Z.of_uint (Pos.to_uint p) = Z.neg p) in Hn. lia.
Qed.

(** The digit count of [str(n)] against the magnitude of [n]. *)

Lemma uval_split (d : uint) (acc : Z) :
  uval acc d = acc * 10 ^ Z.of_nat (length (uint_chars d)) + uval 0 d.
Proof.
  revert acc. induction d; intros acc; cbn [uval uint_chars length];
    try (rewrite Z.mul_1_r, Z.add_0_r; reflexivity);
    rewrite IHd, (IHd (10 * 0 + _)), Nat2Z.inj_succ, Z.pow_succ_r by lia; ring.
Qed.

Lemma uval_lt (d : uint) : 0 <= uval 0 d < 10 ^ Z.of_nat (length (uint_chars d)).
Proof.
  induction d; cbn [uval uint_chars length]; [cbn; lia| ..];
    rewrite uval_split, Nat2Z.inj_succ, Z.pow_succ_r by lia; nia.
Qed.

Lemma nzhead_short (d : uint) : (nb_digits (nzhead d) <= nb_digits d)%nat.
Proof. induction d; cbn; lia. Qed.

(** [Pos.to_uint] writes no leading zero. *)
Lemma to_uint_lead (p : positive) :
  10 ^ (Z.of_nat (length (uint_chars (Pos.to_uint p))) - 1) <= uval 0 (Pos.to_uint p).
Proof.
  pose proof (DecimalPos.Unsigned.to_of (Pos.to_uint p)) as Hn.
  rewrite DecimalPos.Unsigned.of_to in Hn. cbn [N.to_uint] in Hn.
  pose proof (DecimalPos.Unsigned.to_uint_nonzero p) as Hz.
  pose proof (DecimalPos.Unsigned.to_uint_nonnil p) as Hnil.
  destruct (Pos.to_uint p) as [|d|d|d|d|d|d|d|d|d|d]; [contradiction| |
    cbn [uval uint_chars length]; rewrite uval_split, Nat2Z.inj_succ;
    replace (Z.succ _ - 1) with (Z.of_nat (length (uint_chars d))) by lia;
    pose proof (uval_lt d); nia ..].
  exfalso. unfold unorm in Hn. cbn [nzhead] in Hn.
  destruct (nzhead d) eqn:Eh; [injection Hn as Hd; subst d; contradiction| ..];
    try discriminate Hn.
  pose proof (nzhead_short d) as L. rewrite Eh in L.
  injection Hn as Hu. rewrite Hu in L. cbn in L. lia.
Qed.

Lemma filter_digits (l : text) : forallb is_digit l = true -> filter is_digit l = l.
Proof.
  induction l as [|c l IH]; cbn; [reflexivity|]. intros H.
  apply andb_prop in H as [-> Hl]. rewrite (IH Hl). reflexivity.
Qed.

Lemma pos_digits_bound (p : positive) (k : Z) :
  1 <= k -> Z.of_nat (length (uint_chars (Pos.to_uint p))) <= k <-> Z.pos p < 10 ^ k.
Proof.
  intros Hk.
  assert (Hv : Z.pos p = uval 0 (Pos.to_uint p)).
  { rewrite uval_of_uint. exact (eq_sym (DecimalZ.of_to (Z.pos p))). }
  pose proof (uval_lt (Pos.to_uint p)) as Hlt. pose proof (to_uint_lead p) as Hle.
  set (L := Z.of_nat (length (uint_chars (Pos.to_uint p)))) in *.
  assert (HL : 1 <= L).
  { pose proof (DecimalPos.Unsigned.to_uint_nonnil p) as Hn. unfold L.
    destruct (Pos.to_uint p); [contradiction | ..]; cbn [uint_chars length]; lia. }
  rewrite Hv. split; intros H.
  - pose proof (Z.pow_le_mono_r 10 L k ltac:(lia) H). lia.
  - destruct (Z.le_gt_cases L k) as [|Hgt]; [assumption|].
    pose proof (Z.pow_le_mono_r 10 k (L - 1) ltac:(lia) ltac:(lia)). lia.
Qed.

(** The serial bound of [wf_job]: the text of [n] has at most 4300 digits
    exactly when [abs(n) < 10 ** 4300]. *)
Lemma str_digits_bound (n : Z) :
  count_digits (py_str_int n) <= int_max_str_digits <-> Z.abs n < 10 ^ int_max_str_digits.
Proof.
  unfold int_max_str_digits. destruct n as [|p|p].
  - change (count_digits (py_str_int 0)) with 1. cbn [Z.abs].
    split; intros; [apply Z.pow_pos_nonneg|]; lia.
  - change (py_str_int (Z.pos p)) with (uint_chars (Pos.to_uint p)).
    unfold count_digits. rewrite filter_digits by apply uint_chars_digits.
    apply pos_digits_bound. lia.
  - change (py_str_int (Z.neg p)) with (45 :: uint_chars (Pos.to_uint p)).
    unfold count_digits. cbn [filter]. change (is_digit 45) with false. cbv iota.
    rewrite filter_digits by apply uint_chars_digits.
    apply pos_digits_bound. lia.
Qed.

(* ------------------------------------------------------------------------ *)
(** ** [str.find] and slices on split texts *)

Lemma find_from_spec (c : Z) (l : list Z) (i : Z) :
  (find_from c l i = -1 /\ existsb (Z.eqb c) l = false) \/
  exists a r, l = a ++ c :: r /\ existsb (Z.eqb c) a = false /\
              find_from c l i = i + len a.
Proof.
  revert i. induction l as [|x l IH]; intros i; simpl.
  - left. auto.
  - destruct (Z.eqb_spec x c) as [->|Hne].
    + right. exists [], l. simpl. unfold len. simpl.
      repeat split; lia.
    + destruct (IH (i + 1)) as [[H1 H2]|[a [r [-> [H2 H3]]]]].
      * left. rewrite (proj2 (Z.eqb_neq c x)) by congruence. auto.
      * right. exists (x :: a), r. simpl.
        rewrite (proj2 (Z.eqb_neq c x)) by congruence.
        rewrite len_cons. repeat split; auto; lia.
Qed.

Lemma find_from_app (c : Z) (a r : list Z) (i : Z) :
  existsb (Z.eqb c) a = false -> find_from c (a ++ c :: r) i = i + len a.
Proof.
  revert i. induction a as [|x a IH]; intros i H; simpl in *.
  - rewrite Z.eqb_refl. unfold len; simpl; lia.
  - apply orb_false_iff in H as [H1 H2].
    rewrite (proj2 (Z.eqb_neq x c)) by (apply Z.eqb_neq in H1; congruence).
    rewrite IH by exact H2. rewrite len_cons. lia.
Qed.

Lemma py_find_0 (s : text) (c : Z) : py_find s c 0 = find_from c s 0.
Proof.
  unfold py_find, slice_index. simpl.
  rewrite Z.min_l by apply len_nonneg. reflexivity.
Qed.

Lemma py_find_after (a r : text) (c : Z) :
  py_find (a ++ c :: r) c (len a + 1) = find_from c r (len a + 1).
Proof.
  unfold py_find, slice_index.
  replace (Z.of_nat (length (a ++ c :: r))) with (len a + 1 + len r)
    by (unfold len; rewrite length_app; simpl; lia).
  pose proof (len_nonneg a). pose proof (len_nonneg r).
  zbool. rewrite Z.min_l by lia.
  replace (Z.to_nat (len a + 1)) with (length (a ++ [c])).
  - replace (a ++ c :: r) with ((a ++ [c]) ++ r)
      by (rewrite <- app_assoc; reflexivity).
    rewrite skipn_app, skipn_all, Nat.sub_diag. reflexivity.
  - unfold len. rewrite length_app. simpl. lia.
Qed.

Lemma py_slice_in_range {A} (l : list A) (lo hi : Z) :
  0 <= lo <= hi -> hi <= len l ->
  py_slice l lo hi = firstn (Z.to_nat (hi - lo)) (skipn (Z.to_nat lo) l).
Proof.
  intros H1 H2. unfold py_slice, slice_index. fold (len l).
  zbool. rewrite !Z.min_l by lia. reflexivity.
Qed.

Lemma py_slice_app (a b r : list Z) :
  py_slice (a ++ b ++ r) (len a) (len a + len b) = b.
Proof.
  pose proof (len_nonneg a). pose proof (len_nonneg b). pose proof (len_nonneg r).
  rewrite py_slice_in_range by (rewrite ?len_app; lia).
  replace (Z.to_nat (len a)) with (length a) by (unfold len; lia).
  replace (Z.to_nat (len a + len b - len a)) with (length b) by (unfold len; lia).
  rewrite skipn_app, skipn_all, Nat.sub_diag. simpl.
  rewrite firstn_app, firstn_all, Nat.sub_diag. simpl. apply app_nil_r.
Qed.

Lemma py_slice_from_app (a r : list Z) : py_slice_from (a ++ r) (len a) = r.
Proof.
  unfold py_slice_from. replace (Z.of_nat (length (a ++ r))) with (len a + len r)
    by (rewrite <- len_app; reflexivity).
  pose proof (len_nonneg a). pose proof (len_nonneg r).
  rewrite py_slice_in_range by (rewrite ?len_app; lia).
  replace (Z.to_nat (len a)) with (length a) by (unfold len; lia).
  replace (Z.to_nat (len a + len r - len a)) with (length r) by (unfold len; lia).
  rewrite skipn_app, skipn_all, Nat.sub_diag. simpl. apply firstn_all.
Qed.

Lemma split_message_state (msg : text) (st st' : channel) r :
  split_message msg st = (st', r) -> st' = st.
Proof.
  unfold split_message, bind, lift_option, ret, raise.
  destruct (_ <? _); [congruence|].
  destruct (py_int10 _); congruence.
Qed.

(** Splitting [cat:mid:rest] when [cat] and [mid] hold no separator. *)
Lemma split_message_parts (cat mid rest : text) (st : channel) :
  existsb (Z.eqb SEPARATOR) cat = false ->
  existsb (Z.eqb SEPARATOR) mid = false ->
  split_message (cat ++ SEPARATOR :: mid ++ SEPARATOR :: rest) st =
  (st, match mid with
       | [] => Exc (BadMessage "Expecting CAT:NUM:MSG")
       | _ => match py_int10 mid with
              | Some n => Ok (cat, n, rest)
              | None => Exc ValueError
              end
       end).
Proof.
  intros Hc Hm. unfold split_message.
  rewrite py_find_0, find_from_app by exact Hc. rewrite Z.add_0_l.
  pose proof (len_nonneg cat).
  zbool. rewrite py_find_after, find_from_app by exact Hm.
  destruct mid as [|m0 mid'].
  - change (len (@nil Z)) with 0. rewrite Z.add_0_r. zbool. reflexivity.
  - rewrite len_cons. pose proof (len_nonneg mid'). zbool.
    replace (py_slice (cat ++ SEPARATOR :: (m0 :: mid') ++ SEPARATOR :: rest) 0 (len cat))
      with cat.
    2: { symmetry. exact (py_slice_app [] cat _). }
    replace (py_slice (cat ++ SEPARATOR :: (m0 :: mid') ++ SEPARATOR :: rest)
                      (len cat + 1) (len cat + 1 + (1 + len mid')))
      with (m0 :: mid').
    2: { rewrite <- (len_cons m0 mid').
         replace (cat ++ SEPARATOR :: (m0 :: mid') ++ SEPARATOR :: rest)
           with ((cat ++ [SEPARATOR]) ++ (m0 :: mid') ++ SEPARATOR :: rest)
           by (rewrite <- app_assoc; reflexivity).
         replace (len cat + 1) with (len (cat ++ [SEPARATOR]))
           by (rewrite len_app; reflexivity).
         symmetry. apply py_slice_app. }
    replace (len cat + 1 + (1 + len mid') + 1)
      with (len (cat ++ SEPARATOR :: (m0 :: mid') ++ [SEPARATOR])).
    2: { rewrite !len_app, len_cons, len_app, len_cons. change (len [SEPARATOR]) with 1. lia. }
    replace (cat ++ SEPARATOR :: (m0 :: mid') ++ SEPARATOR :: rest)
      with ((cat ++ SEPARATOR :: (m0 :: mid') ++ [SEPARATOR]) ++ rest)
      by (rewrite <- !app_assoc; simpl; rewrite <- !app_assoc; reflexivity).
    rewrite py_slice_from_app.
    unfold bind, lift_option.
    destruct (py_int10 (m0 :: mid')); reflexivity.
Qed.

Lemma split_message_few (body : text) (st : channel) :
  (count_occ Z.eq_dec body SEPARATOR < 2)%nat ->
  split_message body st = (st, Exc (BadMessage "Expecting CAT:NUM:MSG")).
Proof.
  intros Hc. unfold split_message. rewrite py_find_0.
  destruct (find_from_spec SEPARATOR body 0) as [[H1 _]|[a [r [-> [Ha H3]]]]].
  - rewrite H1. reflexivity.
  - rewrite H3, Z.add_0_l. pose proof (len_nonneg a). zbool.
    rewrite py_find_after.
    destruct (find_from_spec SEPARATOR r (len a + 1)) as [[H4 _]|[a' [r' [-> _]]]].
    + rewrite H4. zbool. reflexivity.
    + exfalso. rewrite count_occ_app, count_occ_cons_eq, count_occ_app,
        count_occ_cons_eq in Hc by reflexivity. lia.
Qed.

Lemma py_str_int_shape (n : Z) :
  existsb (Z.eqb SEPARATOR) (py_str_int n) = false /\ py_str_int n <> [].
Proof.
  assert (Hd : forall d, existsb (Z.eqb SEPARATOR) (uint_chars d) = false)
    by (induction d; simpl; auto).
  unfold py_str_int. destruct n as [|p|p]; simpl.
  - split; [reflexivity | discriminate].
  - split; [apply Hd|].
    pose proof (DecimalPos.Unsigned.to_uint_nonnil p) as Hn.
    destruct (Pos.to_uint p); [contradiction | ..]; discriminate.
  - split; [apply Hd | discriminate].
Qed.

Lemma py_str_ok (n : Z) :
  count_digits (py_str_int n) <= int_max_str_digits -> py_str n = Some (py_str_int n).
Proof. intros H. unfold py_str. zbool. reflexivity. Qed.

Lemma wf_job_parts (cat : text) (num : Z) (msg : text) :
  wf_job (cat, num, msg) = true ->
  forallb valid_cp cat = true /\ existsb (Z.eqb SEPARATOR) cat = false /\
  count_digits (py_str_int num) <= int_max_str_digits /\ forallb valid_cp msg = true.
Proof.
  unfold wf_job. intros H.
  apply andb_prop in H as [H Hm]. apply andb_prop in H as [H Hn].
  apply andb_prop in H as [Hv Hc]. apply negb_true_iff in Hc.
  apply Z.leb_le in Hn. auto.
Qed.

Lemma split_body_text (j : job) (st : channel) :
  wf_job j = true -> split_message (body_text j) st = (st, Ok j).
Proof.
  destruct j as [[cat num] msg]. intros H.
  destruct (wf_job_parts cat num msg H) as [_ [Hc [Hn _]]].
  change (split_message (cat ++ SEPARATOR :: py_str_int num ++ SEPARATOR :: msg) st =
          (st, Ok (cat, num, msg))).
  destruct (py_str_int_shape num) as [Hm Hne].
  rewrite split_message_parts by assumption.
  pose proof (py_int10_str num Hn) as Hi.
  destruct (py_str_int num); [contradiction|]. rewrite Hi. reflexivity.
Qed.

(* ------------------------------------------------------------------------ *)
(** ** The header scanner *)

Lemma nth_skipn_cons (k : nat) (l r : list Z) (x : Z) :
  skipn k l = x :: r -> nth k l 0 = x /\ skipn (S k) l = r.
Proof.
  revert l. induction k as [|k IH]; intros l H; destruct l as [|y l];
    simpl in *; try discriminate.
  - injection H as -> ->. auto.
  - apply IH. exact H.
Qed.

Lemma digits_value_uint (d : uint) (acc : Z) :
  digits_value acc (uint_chars d) = uval acc d.
Proof.
  unfold digits_value, ZERO. revert acc.
  induction d; intros acc; simpl; auto.
Qed.

Lemma scan_header_sep (ds : list Z) (i : Z) (n : nat) (size : Z) (st : channel) R :
  forallb is_digit ds = true -> 0 <= i ->
  skipn (Z.to_nat i) (buf st) = ds ++ SEPARATOR :: R ->
  off st + 1 < i + len ds -> (length ds < n)%nat ->
  scan_header i n size st =
  (set_siz (digits_value size ds) (set_off (i + len ds + 1) st), Ok tt).
Proof.
  revert i n size. induction ds as [|d ds IH]; intros i n size Hd Hi Hs Hlt Hn;
    destruct n as [|n]; simpl in Hn; try lia; simpl in Hs;
    destruct (nth_skipn_cons _ _ _ _ Hs) as [Hb Hs'];
    cbn [scan_header]; unfold bind, get; unfold byte_at; rewrite Hb.
  - unfold SEPARATOR, ZERO, NINE in *. change (len (@nil Z)) with 0 in *.
    zbool. simpl. rewrite Z.add_0_r. reflexivity.
  - simpl in Hd. apply andb_prop in Hd as [Hd Hds].
    unfold is_digit in Hd. apply andb_prop in Hd as [Hd1 Hd2].
    unfold ZERO, NINE in *. rewrite Hd1, Hd2. cbn [andb].
    rewrite (IH (i + 1)); auto; try lia.
    + unfold digits_value, ZERO. simpl fold_left. rewrite len_cons.
      replace (i + 1 + len ds + 1) with (i + (1 + len ds) + 1) by lia.
      reflexivity.
    + replace (Z.to_nat (i + 1)) with (S (Z.to_nat i)) by lia. exact Hs'.
    + rewrite len_cons in Hlt. lia.
Qed.

Lemma scan_header_end (ds : list Z) (i : Z) (n : nat) (size : Z) (st : channel) :
  forallb is_digit ds = true -> 0 <= i ->
  skipn (Z.to_nat i) (buf st) = ds -> (n <= length ds)%nat ->
  scan_header i n size st = (st, Ok tt).
Proof.
  revert i n size. induction ds as [|d ds IH]; intros i n size Hd Hi Hs Hn;
    destruct n as [|n]; simpl in Hn; try lia; try reflexivity.
  destruct (nth_skipn_cons _ _ _ _ Hs) as [Hb Hs'].
  cbn [scan_header]. unfold bind, get, byte_at. rewrite Hb.
  simpl in Hd. apply andb_prop in Hd as [Hd Hds].
  unfold is_digit in Hd. unfold ZERO, NINE. rewrite Hd. cbn [andb].
  apply IH; auto; try lia.
  replace (Z.to_nat (i + 1)) with (S (Z.to_nat i)) by lia. exact Hs'.
Qed.

(* ------------------------------------------------------------------------ *)
(** ** Frames of well-formed messages *)

Lemma digits_valid (l : text) : forallb is_digit l = true -> forallb valid_cp l = true.
Proof.
  intros H. apply forallb_forall. intros x Hx.
  pose proof (proj1 (forallb_forall _ l) H x Hx) as Hd.
  unfold is_digit in Hd. apply andb_prop in Hd as [H1 H2].
  apply Z.leb_le in H1. apply Z.leb_le in H2.
  unfold valid_cp. zbool. reflexivity.
Qed.

Lemma py_str_int_valid (n : Z) : forallb valid_cp (py_str_int n) = true.
Proof.
  unfold py_str_int. destruct (Z.to_int n).
  - apply digits_valid, uint_chars_digits.
  - simpl. apply digits_valid, uint_chars_digits.
Qed.

Lemma py_str_int_ascii (n : Z) :
  forallb (fun c => (0 <=? c) && (c <? 128)) (py_str_int n) = true.
Proof.
  assert (H : forall d, forallb (fun c => (0 <=? c) && (c <? 128)) (uint_chars d) = true)
    by (induction d; simpl; auto).
  unfold py_str_int. destruct (Z.to_int n); simpl; auto.
Qed.

Lemma wf_body_valid (f : job) :
  wf_job f = true -> forallb valid_cp (body_text f) = true.
Proof.
  destruct f as [[cat num] msg]. unfold body_text. intros H.
  destruct (wf_job_parts cat num msg H) as [Hc [_ [_ Hm]]].
  rewrite !forallb_app. rewrite Hc, Hm, py_str_int_valid. reflexivity.
Qed.

Lemma body_bytes_spec (f : job) :
  wf_job f = true ->
  utf8_encode (body_text f) = Some (body_bytes f) /\
  utf8_decode (body_bytes f) = Some (body_text f) /\ body_bytes f <> [].
Proof.
  intros H. destruct (utf8_roundtrip _ (wf_body_valid f H)) as [b [E [D N]]].
  unfold body_bytes. rewrite E. repeat split; auto.
  apply N. destruct f as [[cat num] msg]. unfold body_text.
  destruct cat; discriminate.
Qed.

Lemma header_shape (f : job) :
  wf_job f = true ->
  exists ds, header_bytes f = BEGIN :: ds ++ [SEPARATOR] /\ ds <> [] /\
    forallb is_digit ds = true /\ digits_value 0 ds = len (body_bytes f).
Proof.
  intros H. destruct (body_bytes_spec f H) as [_ [_ N]].
  assert (Hp : 0 < len (body_bytes f)).
  { destruct (body_bytes f) as [|b0 bs]; [contradiction|]. rewrite len_cons.
    pose proof (len_nonneg bs). lia. }
  unfold header_bytes. destruct (len (body_bytes f)) as [|p|p] eqn:E; try lia.
  exists (uint_chars (Pos.to_uint p)). repeat split.
  - pose proof (DecimalPos.Unsigned.to_uint_nonnil p) as Hn.
    destruct (Pos.to_uint p); [contradiction | ..]; discriminate.
  - apply uint_chars_digits.
  - rewrite digits_value_uint, uval_of_uint.
    pose proof (DecimalZ.of_to (Z.pos p)) as Ht. exact Ht.
Qed.

Lemma header_nonempty (f : job) : header_bytes f <> [].
Proof. unfold header_bytes. discriminate. Qed.

Lemma frame_nonempty (f : job) : frame_bytes f <> [].
Proof. unfold frame_bytes, header_bytes. discriminate. Qed.

Lemma frames_bytes_cons (f : job) (fs : list job) :
  frames_bytes (f :: fs) = frame_bytes f ++ frames_bytes fs.
Proof. reflexivity. Qed.

Lemma frames_bytes_app (fs gs : list job) :
  frames_bytes (fs ++ gs) = frames_bytes fs ++ frames_bytes gs.
Proof. unfold frames_bytes. rewrite map_app, concat_app. reflexivity. Qed.

Lemma frames_length (fs : list job) : (length fs <= length (frames_bytes fs))%nat.
Proof.
  induction fs as [|f fs IH]; [simpl; lia|].
  rewrite frames_bytes_cons, length_app. cbn [length].
  pose proof (frame_nonempty f). destruct (frame_bytes f); [contradiction|].
  simpl. lia.
Qed.

Lemma len_frames_pos (fs : list job) : fs <> [] -> 0 < len (frames_bytes fs).
Proof.
  intros H. pose proof (frames_length fs). unfold len.
  destruct fs; [contradiction|]. simpl in *. lia.
Qed.

Lemma partial_off_nil (f : job) : partial_off f [] = 0.
Proof.
  unfold partial_off. pose proof (header_nonempty f).
  destruct (header_bytes f) as [|h0 hs]; [contradiction|]. rewrite len_cons.
  pose proof (len_nonneg hs). change (len (@nil Z)) with 0. zbool. reflexivity.
Qed.

Lemma partial_siz_nil (f : job) : partial_siz f [] = -1.
Proof.
  unfold partial_siz. pose proof (header_nonempty f).
  destruct (header_bytes f) as [|h0 hs]; [contradiction|]. rewrite len_cons.
  pose proof (len_nonneg hs). change (len (@nil Z)) with 0. zbool. reflexivity.
Qed.

Lemma pending_nil (fs : list job) : pending_off fs [] = 0 /\ pending_siz fs [] = -1.
Proof.
  destruct fs; simpl; auto using partial_off_nil, partial_siz_nil.
Qed.

Lemma prefix_digits (p q ds : list Z) :
  p ++ q = ds ++ [SEPARATOR] -> q <> [] -> forallb is_digit ds = true ->
  forallb is_digit p = true.
Proof.
  revert ds. induction p as [|x p IH]; intros ds E Nq Hd; [reflexivity|].
  destruct ds as [|d ds]; simpl in E; injection E as E1 E2.
  - apply app_eq_nil in E2 as [_ ->]. contradiction.
  - subst. simpl in Hd |- *. apply andb_prop in Hd as [Hd Hds].
    rewrite Hd. simpl. eapply IH; eauto.
Qed.

(* ------------------------------------------------------------------------ *)
(** ** One iteration of the receive loop *)

(** The header branch of an iteration ends in the body branch of the same
    iteration once [_siz] is known. *)
Lemma loop_after_scan (fuel : nat) (bufsiz c : Z) (st st1 : channel) :
  siz st < 0 ->
  (if off st <? bufsiz then
     if byte_at (buf st) (off st) =? BEGIN then
       scan_header (off st + 1) (Z.to_nat (bufsiz - (off st + 1))) 0
     else raise (BadMessage "Missing begin message marker")
   else ret tt) st = (st1, Ok tt) ->
  0 <= siz st1 ->
  receive_loop (S fuel) bufsiz c st = receive_loop (S fuel) bufsiz c st1.
Proof.
  intros Hs Hscan Hs1.
  cbn [receive_loop]. rewrite !bind_get.
  rewrite (proj2 (Z.ltb_lt _ _) Hs), (proj2 (Z.ltb_ge _ _) Hs1).
  rewrite (bind_ok _ _ _ _ _ Hscan). cbv beta. rewrite bind_get.
  rewrite (proj2 (Z.ltb_ge _ _) Hs1). reflexivity.
Qed.

(** A parsed header whose body is not complete yet: leave the loop. *)
Lemma loop_parsed_wait (fuel : nat) (bufsiz c : Z) (st : channel) :
  0 <= siz st -> bufsiz < off st + siz st ->
  receive_loop (S fuel) bufsiz c st = (st, Ok c).
Proof.
  intros H1 H2. cbn [receive_loop]. mrun. zbool. mrun. zbool. reflexivity.
Qed.

(** A parsed header whose body is complete: the message is queued. *)
Lemma loop_parsed_step (P R : bytes) (f : job) (fuel : nat) (c : Z) (st : channel) :
  wf_job f = true ->
  buf st = P ++ header_bytes f ++ body_bytes f ++ R ->
  off st = len P + len (header_bytes f) -> siz st = len (body_bytes f) ->
  receive_loop (S fuel) (len (buf st)) c st =
  receive_loop fuel (len (buf st)) (len P + len (frame_bytes f))
    (mkChannel (cnt st) (io st) (buf st) (len P + len (frame_bytes f)) (-1)
               (jobs st ++ [f])).
Proof.
  intros Hwf Hb Ho Hs.
  destruct (body_bytes_spec f Hwf) as [_ [Hdec Hne]].
  assert (Hp : 0 < len (body_bytes f)).
  { destruct (body_bytes f) as [|b0 bs]; [contradiction|]. rewrite len_cons.
    pose proof (len_nonneg bs). lia. }
  assert (Hlen : len (buf st) = len P + len (header_bytes f) + len (body_bytes f) + len R)
    by (rewrite Hb, !len_app; lia).
  pose proof (len_nonneg R).
  cbn [receive_loop]. mrun. zbool. mrun. rewrite Hlen. zbool.
  replace (py_slice (buf st) (off st) (off st + siz st)) with (body_bytes f).
  2: { rewrite Hb, Ho, Hs, app_assoc, <- len_app. symmetry. apply py_slice_app. }
  rewrite Hdec. unfold lift_option. mrun.
  rewrite (bind_ok _ _ _ _ _ (split_body_text f _ Hwf)).
  unfold push_job. mrun.
  replace (off st + siz st) with (len P + len (frame_bytes f))
    by (unfold frame_bytes; rewrite len_app; lia).
  destruct st. reflexivity.
Qed.

Lemma skipn_len_app (a r : list Z) : skipn (Z.to_nat (len a)) (a ++ r) = r.
Proof.
  replace (Z.to_nat (len a)) with (length a) by (unfold len; lia).
  rewrite skipn_app, skipn_all, Nat.sub_diag. reflexivity.
Qed.

Lemma byte_at_len_app (a r : list Z) (x : Z) : byte_at (a ++ x :: r) (len a) = x.
Proof.
  unfold byte_at. replace (Z.to_nat (len a)) with (length a) by (unfold len; lia).
  rewrite app_nth2, Nat.sub_diag by lia. reflexivity.
Qed.

(** A complete header at the cursor is parsed. *)
Lemma loop_header_full (P R : bytes) (f : job) (fuel : nat) (c : Z) (st : channel) :
  wf_job f = true ->
  buf st = P ++ header_bytes f ++ R -> off st = len P -> siz st = -1 ->
  receive_loop (S fuel) (len (buf st)) c st =
  receive_loop (S fuel) (len (buf st)) c
    (mkChannel (cnt st) (io st) (buf st) (len P + len (header_bytes f))
               (len (body_bytes f)) (jobs st)).
Proof.
  intros Hwf Hb Ho Hs.
  destruct (header_shape f Hwf) as [ds [Hh [Hne [Hd Hv]]]].
  assert (Hds : 0 < len ds).
  { destruct ds as [|d0 ds']; [contradiction|]. rewrite len_cons.
    pose proof (len_nonneg ds'). lia. }
  assert (Hlen : len (buf st) = len P + 1 + len ds + 1 + len R).
  { rewrite Hb, Hh, !len_app, len_cons, len_app. change (len [SEPARATOR]) with 1. lia. }
  pose proof (len_nonneg R). pose proof (len_nonneg P).
  apply loop_after_scan; [lia | | simpl; apply len_nonneg].
  rewrite Ho, Hlen. zbool.
  replace (byte_at (buf st) (len P)) with BEGIN
    by (rewrite Hb, Hh; symmetry; apply byte_at_len_app).
  rewrite Z.eqb_refl.
  rewrite (scan_header_sep ds (len P + 1) _ 0 st R); auto; try lia.
  - rewrite Hv, Hh, len_cons, len_app. change (len [SEPARATOR]) with 1.
    unfold set_siz, set_off. cbn [cnt io buf off siz jobs]. do 2 f_equal. lia.
  - rewrite Hb, Hh.
    replace (P ++ (BEGIN :: ds ++ [SEPARATOR]) ++ R)
      with ((P ++ [BEGIN]) ++ ds ++ SEPARATOR :: R)
      by (rewrite <- !app_assoc; simpl; rewrite <- app_assoc; reflexivity).
    replace (len P + 1) with (len (P ++ [BEGIN])) by (rewrite len_app; reflexivity).
    apply skipn_len_app.
  - unfold len in *. lia.
Qed.

(** An incomplete header at the end of the buffer: leave the loop, and wait
    for more data. *)
Lemma loop_header_partial (P p q : bytes) (f : job) (fuel : nat) (c : Z) (st : channel) :
  wf_job f = true -> p ++ q = header_bytes f -> q <> [] ->
  buf st = P ++ p -> off st = len P -> siz st = -1 ->
  receive_loop (S fuel) (len (buf st)) c st = (st, Ok c).
Proof.
  intros Hwf Hpq Hq Hb Ho Hs.
  destruct (header_shape f Hwf) as [ds [Hh [_ [Hd _]]]].
  pose proof (len_nonneg P).
  cbn [receive_loop]. mrun. rewrite Hs. zbool.
  destruct p as [|x p'].
  - rewrite Hb, app_nil_r, Ho. zbool. rewrite bind_ret. mrun. rewrite Hs. zbool.
    reflexivity.
  - rewrite Hh in Hpq. simpl in Hpq. injection Hpq as -> Hpq.
    assert (Hlen : len (buf st) = len P + 1 + len p')
      by (rewrite Hb, len_app, len_cons; lia).
    pose proof (len_nonneg p').
    rewrite Ho, Hlen. zbool.
    rewrite Hb, byte_at_len_app, Z.eqb_refl.
    rewrite (bind_ok _ _ _ _ _ (scan_header_end p' (len P + 1)
                                  (Z.to_nat (len P + 1 + len p' - (len P + 1))) 0 st
                                  (prefix_digits p' q ds Hpq Hq Hd) ltac:(lia)
                                  ltac:(rewrite Hb; replace (P ++ BEGIN :: p') with
                                          ((P ++ [BEGIN]) ++ p')
                                          by (rewrite <- app_assoc; reflexivity);
                                        replace (len P + 1) with (len (P ++ [BEGIN]))
                                          by (rewrite len_app; reflexivity);
                                        apply skipn_len_app)
                                  ltac:(unfold len in *; lia))).
    mrun. rewrite Hs. zbool. reflexivity.
Qed.

(** Nothing left to read: leave the loop. *)
Lemma loop_end (fuel : nat) (c : Z) (st : channel) :
  off st = len (buf st) -> siz st = -1 ->
  receive_loop (S fuel) (len (buf st)) c st = (st, Ok c).
Proof.
  intros Ho Hs. cbn [receive_loop]. mrun. rewrite Hs. zbool.
  rewrite bind_ret. mrun. rewrite Hs. zbool. reflexivity.
Qed.

(* ------------------------------------------------------------------------ *)
(** ** The receive loop over whole frames *)

(** The loop reads the complete frames [fs] at the cursor, one iteration
    each, queues their messages in order and leaves the cursor after them. *)
Lemma loop_prefix (fs : list job) (P R : bytes) (fuel : nat) (c : Z) (st : channel) :
  Forall (fun j => wf_job j = true) fs ->
  buf st = P ++ frames_bytes fs ++ R -> off st = len P -> siz st = -1 ->
  receive_loop (length fs + fuel) (len (buf st)) c st =
  receive_loop fuel (len (buf st))
    (match fs with [] => c | _ => len P + len (frames_bytes fs) end)
    (mkChannel (cnt st) (io st) (buf st) (len P + len (frames_bytes fs)) (-1)
               (jobs st ++ fs)).
Proof.
  revert P c st. induction fs as [|f fs IH]; intros P c st Hwf Hb Ho Hs.
  - cbn [length Nat.add]. change (len (frames_bytes [])) with 0.
    rewrite Z.add_0_r, app_nil_r. destruct st; cbn in *. subst. reflexivity.
  - inversion Hwf as [|f' fs' Hf Hfs]; subst.
    cbn [length Nat.add].
    rewrite frames_bytes_cons in Hb. unfold frame_bytes in Hb.
    rewrite <- !app_assoc in Hb.
    rewrite (loop_header_full P _ f _ c st Hf Hb Ho Hs).
    etransitivity.
    { exact (loop_parsed_step P (frames_bytes fs ++ R) f (length fs + fuel) c
               (mkChannel (cnt st) (io st) (buf st) (len P + len (header_bytes f))
                          (len (body_bytes f)) (jobs st)) Hf Hb eq_refl eq_refl). }
    cbn [cnt io buf off siz jobs].
    etransitivity.
    { exact (IH (P ++ frame_bytes f) _
               (mkChannel (cnt st) (io st) (buf st) (len P + len (frame_bytes f)) (-1)
                          (jobs st ++ [f])) Hfs ltac:(cbn [buf]; rewrite Hb;
                  unfold frame_bytes; rewrite <- !app_assoc; reflexivity)
               ltac:(cbn [off]; rewrite len_app; reflexivity) eq_refl). }
    + cbn [cnt io buf off siz jobs]. rewrite <- app_assoc. cbn [Datatypes.app].
      rewrite len_app, frames_bytes_cons, len_app, Z.add_assoc.
      destruct fs; [|reflexivity].
      change (len (frames_bytes [])) with 0. rewrite !Z.add_0_r. reflexivity.
Qed.

Lemma strict_prefix_split (p q a b : list Z) :
  p ++ q = a ++ b -> q <> [] ->
  (len p < len a /\ exists l, l <> [] /\ p ++ l = a) \/
  (len a <= len p /\ exists l, p = a ++ l /\ len l < len b).
Proof.
  intros E Hq. pose proof (f_equal len E) as El. rewrite !len_app in El.
  assert (Hq' : 0 < len q).
  { destruct q as [|x q]; [contradiction|]. rewrite len_cons.
    pose proof (len_nonneg q). lia. }
  apply app_eq_app in E as [l [[E1 E2]|[E1 E2]]].
  - right. subst. rewrite len_app in *. pose proof (len_nonneg l).
    split; [lia|]. exists l. split; [reflexivity|]. rewrite len_app. lia.
  - destruct l as [|x l].
    + right. rewrite app_nil_r in E1. subst. split; [lia|].
      exists []. rewrite app_nil_r. split; [reflexivity|].
      change (len (@nil Z)) with 0. cbn [Datatypes.app] in Hq'. lia.
    + left. subst. rewrite len_app, len_cons. pose proof (len_nonneg l).
      split; [lia|]. exists (x :: l). split; [discriminate | reflexivity].
Qed.

(** The loop reads the complete frames [fsA] and stops on the partial frame
    [p] that follows them, with the cursor where the next trigger resumes. *)
Lemma loop_frames (fsA fsB : list job) (P p : bytes) (fuel : nat) (c : Z) (st : channel) :
  Forall (fun j => wf_job j = true) fsA -> Forall (fun j => wf_job j = true) fsB ->
  pending_ok fsB p ->
  buf st = P ++ frames_bytes fsA ++ p -> off st = len P -> siz st = -1 ->
  (length fsA < fuel)%nat ->
  receive_loop fuel (len (buf st)) c st =
  (mkChannel (cnt st) (io st) (buf st)
             (len P + len (frames_bytes fsA) + pending_off fsB p)
             (pending_siz fsB p) (jobs st ++ fsA),
   Ok (match fsA with [] => c | _ => len P + len (frames_bytes fsA) end)).
Proof.
  intros HA HB Hp Hb Ho Hs Hf.
  replace fuel with (length fsA + S (fuel - S (length fsA)))%nat by lia.
  etransitivity; [exact (loop_prefix fsA P p _ c st HA Hb Ho Hs)|].
  set (c' := match fsA with [] => c | _ => _ end).
  set (k := (fuel - S (length fsA))%nat).
  assert (Hb' : buf st = (P ++ frames_bytes fsA) ++ p) by (rewrite <- app_assoc; exact Hb).
  set (st' := mkChannel (cnt st) (io st) (buf st) (len P + len (frames_bytes fsA)) (-1)
                        (jobs st ++ fsA)).
  destruct fsB as [|f fsB]; cbn [pending_ok pending_off pending_siz] in *.
  - subst p. rewrite Z.add_0_r.
    apply (loop_end k c' st'); unfold st'; cbn [buf off siz]; [|reflexivity].
    rewrite Hb', app_nil_r, len_app. reflexivity.
  - inversion HB as [|f' fs' Hwf _]; subst.
    destruct Hp as [q [Hq Hpq]]. unfold frame_bytes in Hpq.
    destruct (strict_prefix_split _ _ _ _ Hpq Hq) as [[Hlt [l [Hl Hpl]]]|[Hge [l [Hpl Hlt]]]].
    + unfold partial_off, partial_siz. zbool. rewrite Z.add_0_r.
      apply (loop_header_partial (P ++ frames_bytes fsA) p l f k c' st' Hwf Hpl Hl);
        unfold st'; cbn [buf off siz];
        [exact Hb' | rewrite len_app; reflexivity | reflexivity].
    + unfold partial_off, partial_siz. zbool.
      subst p.
      etransitivity.
      { exact (loop_header_full (P ++ frames_bytes fsA) l f k c' st' Hwf Hb'
                 ltac:(unfold st'; cbn [off]; rewrite len_app; reflexivity) eq_refl). }
      unfold st'. cbn [cnt io buf off siz jobs]. rewrite len_app.
      set (st'' := mkChannel (cnt st) (io st) (buf st)
                     (len P + len (frames_bytes fsA) + len (header_bytes f))
                     (len (body_bytes f)) (jobs st ++ fsA)).
      apply (loop_parsed_wait k _ c' st''); unfold st''; cbn [off siz buf].
      * apply len_nonneg.
      * rewrite Hb', !len_app. lia.
Qed.

(* ------------------------------------------------------------------------ *)
(** ** The drain loop *)

Lemma io_recv_spec (n : Z) (st : channel) :
  io_recv n st =
  (set_io (mkSocket (written (io st)) (skipn (Z.to_nat n) (incoming (io st)))) st,
   Ok (firstn (Z.to_nat n) (incoming (io st)))).
Proof. reflexivity. Qed.

(** The drain loop moves everything the transport holds to [_buf]. *)
Lemma drain_all (fuel : nat) (st : channel) :
  (length (incoming (io st)) < 1024 * fuel)%nat ->
  drain fuel 1024 st =
  (mkChannel (cnt st) (mkSocket (written (io st)) []) (buf st ++ incoming (io st))
             (off st) (siz st) (jobs st), Ok tt).
Proof.
  revert st. induction fuel as [|fuel IH]; intros st H; [lia|].
  cbn [drain]. rewrite (bind_ok _ _ _ _ _ (io_recv_spec 1024 st)).
  set (inc := incoming (io st)) in *.
  set (b := firstn (Z.to_nat 1024) inc).
  set (st1 := set_io (mkSocket (written (io st)) (skipn (Z.to_nat 1024) inc)) st).
  set (st2 := mkChannel (cnt st) (mkSocket (written (io st)) (skipn (Z.to_nat 1024) inc))
                        (buf st ++ b) (off st) (siz st) (jobs st)).
  assert (Hlb : len b = Z.of_nat (Nat.min 1024 (length inc)))
    by (unfold len, b; rewrite length_firstn; reflexivity).
  assert (Happ : (if 0 <? len b then
                    st0 <- get;;
                    if 0 <? len (buf st0) then put (set_buf (buf st0 ++ b) st0)
                    else put (set_buf b st0)
                  else ret tt) st1 = (st2, Ok tt)).
  { destruct (Z.ltb_spec 0 (len b)).
    - mrun. destruct (Z.ltb_spec 0 (len (buf st1))); [reflexivity|].
      unfold st1, st2. cbn [buf set_io]. destruct st as [? ? bf ? ? ?]; cbn in *.
      destruct bf as [|x bf]; [reflexivity|].
      rewrite len_cons in *. pose proof (len_nonneg bf). lia.
    - assert (Hb0 : b = []) by (destruct b as [|x b']; [reflexivity|];
                                rewrite len_cons in *; pose proof (len_nonneg b'); lia).
      assert (Hi0 : inc = []).
      { destruct inc as [|x inc']; [reflexivity|]. unfold b in Hb0. discriminate. }
      unfold st1, st2. rewrite Hb0. rewrite Hi0. cbn.
      destruct st as [? [? ?] ? ? ? ?]; cbn in *. rewrite app_nil_r.
      reflexivity. }
  rewrite (bind_ok _ _ _ _ _ Happ).
  destruct (Nat.lt_ge_cases (length inc) 1024) as [Hs|Hs].
  - rewrite Hlb, Nat.min_r by lia. zbool. unfold ret, st2, b.
    rewrite skipn_all2, firstn_all2 by (simpl; lia). reflexivity.
  - rewrite Hlb, Nat.min_l by lia. zbool.
    rewrite IH.
    + unfold st2, b. cbn [cnt io buf off siz jobs written incoming].
      rewrite <- app_assoc, firstn_skipn. reflexivity.
    + unfold st2. cbn [io incoming]. rewrite length_skipn. simpl. lia.
Qed.

Lemma collect_spec (st : channel) :
  collect st =
  (mkChannel (cnt st) (mkSocket (written (io st)) []) (buf st ++ incoming (io st))
             (off st) (siz st) (jobs st), Ok tt).
Proof. unfold collect. mrun. apply drain_all. unfold drain_fuel. lia. Qed.

(* ------------------------------------------------------------------------ *)
(** ** Compaction *)

Lemma compact_0 (st : channel) : compact 0 st = (st, Ok tt).
Proof. reflexivity. Qed.

Lemma compact_app (a r : bytes) (st : channel) :
  0 < len a -> buf st = a ++ r ->
  compact (len a) st =
  (mkChannel (cnt st) (io st) r (off st - len a) (siz st) (jobs st), Ok tt).
Proof.
  intros Ha Hb. unfold compact. zbool. mrun. rewrite Hb, py_slice_from_app.
  reflexivity.
Qed.

(* ------------------------------------------------------------------------ *)
(** ** Cutting a stream of frames *)

(** Any prefix of the bytes of [fs] is made of complete frames followed by
    part of the next one. *)
Lemma frames_decompose (fs : list job) (s t : bytes) :
  s ++ t = frames_bytes fs ->
  exists fsA fsB p, fs = fsA ++ fsB /\ s = frames_bytes fsA ++ p /\ pending_ok fsB p.
Proof.
  revert s. induction fs as [|f fs IH]; intros s E.
  - apply app_eq_nil in E as [-> _]. exists [], [], []. simpl. auto.
  - rewrite frames_bytes_cons in E.
    apply app_eq_app in E as [l [[E1 E2]|[E1 E2]]].
    + symmetry in E2. destruct (IH l E2) as [fsA [fsB [p [-> [-> Hp]]]]].
      exists (f :: fsA), fsB, p. rewrite frames_bytes_cons, <- app_assoc.
      auto.
    + destruct l as [|x l].
      * rewrite app_nil_r in E1. subst s.
        exists [f], fs, []. rewrite frames_bytes_cons. cbn. rewrite !app_nil_r.
        repeat split. destruct fs as [|g fs]; [reflexivity|].
        exists (frame_bytes g). split; [apply frame_nonempty | reflexivity].
      * exists [], (f :: fs), s. repeat split.
        exists (x :: l). split; [discriminate | symmetry; exact E1].
Qed.

(* ------------------------------------------------------------------------ *)
(** ** One receive trigger on a stream of frames *)

Lemma len_nil_add (x : Z) : len (@nil Z) + x = x.
Proof. reflexivity. Qed.

(** The loop and the compaction, from a decoder that holds [p] of the
    frames [fs] and has just collected [c]. *)
Lemma process_decoder (n : Z) (s : socket) (fs fsA fsB : list job) (p c p' : bytes)
    (js : list job) :
  Forall (fun j => wf_job j = true) fs -> pending_ok fs p ->
  fs = fsA ++ fsB -> p ++ c = frames_bytes fsA ++ p' -> pending_ok fsB p' ->
  process_pending (mkChannel n s (p ++ c) (pending_off fs p) (pending_siz fs p) js) =
  (decoder n s fsB p' (js ++ fsA), Ok tt).
Proof.
  intros Hwf Hp Hfs Hpc Hp'.
  subst fs. apply Forall_app in Hwf as [HA HB].
  set (st := mkChannel n s (p ++ c) (pending_off (fsA ++ fsB) p)
                       (pending_siz (fsA ++ fsB) p) js).
  unfold process_pending. rewrite bind_get.
  assert (Hfuel : (length fsA <= length (p ++ c))%nat).
  { rewrite Hpc, length_app. pose proof (frames_length fsA). lia. }
  assert (CA : pending_off (fsA ++ fsB) p = 0 -> pending_siz (fsA ++ fsB) p = -1 ->
               bind (receive_loop (S (length (buf st))) (len (buf st)) 0) compact st =
               (decoder n s fsB p' (js ++ fsA), Ok tt)).
  { intros Ho Hs.
    rewrite (bind_ok _ _ _ _ _
               (loop_frames fsA fsB [] p' (S (length (buf st))) 0 st HA HB Hp' Hpc
                            Ho Hs ltac:(cbn [buf st]; lia))).
    cbn [cnt io buf jobs st]. rewrite len_nil_add.
    destruct fsA as [|g fsA'].
    - rewrite compact_0. unfold decoder. cbn in Hpc. subst p'.
      change (len (frames_bytes [])) with 0. reflexivity.
    - rewrite (compact_app (frames_bytes (g :: fsA')) p').
      + cbn [cnt io buf off siz jobs]. unfold decoder. f_equal. f_equal. lia.
      + apply len_frames_pos. discriminate.
      + exact Hpc. }
  destruct fsA as [|g fsA'].
  - destruct fsB as [|f fs']; [apply CA; reflexivity|].
    cbn [Datatypes.app] in *.
    destruct Hp as [q [Hq Hpq]]. unfold frame_bytes in Hpq.
    destruct (strict_prefix_split _ _ _ _ Hpq Hq) as [[Hlt _]|[Hge [l [Hpl Hlt]]]].
    { apply CA; cbn [pending_off pending_siz partial_off partial_siz];
        unfold partial_off, partial_siz; zbool; reflexivity. }
    cbn [frames_bytes map concat Datatypes.app] in Hpc. subst p'.
    destruct Hp' as [q' [Hq' Hpq']].
    assert (Hl' : len (p ++ c) < len (frame_bytes f)).
    { apply (f_equal len) in Hpq'. rewrite len_app in Hpq'.
      destruct q' as [|x q'']; [contradiction|]. rewrite len_cons in Hpq'.
      pose proof (len_nonneg q''). lia. }
    rewrite (bind_ok _ _ _ _ _ (loop_parsed_wait (length (buf st)) (len (buf st)) 0 st
                                  ltac:(cbn [st siz pending_siz]; unfold partial_siz;
                                        zbool; apply len_nonneg)
                                  ltac:(cbn [st siz off buf pending_siz pending_off];
                                        unfold partial_siz, partial_off; zbool;
                                        unfold frame_bytes in Hl';
                                        rewrite !len_app in Hl'; rewrite !len_app;
                                        lia))).
    rewrite compact_0. unfold st, decoder. rewrite app_nil_r.
    cbn [pending_off pending_siz]. unfold partial_off, partial_siz.
    rewrite len_app. pose proof (len_nonneg c). zbool. reflexivity.
  - cbn [Datatypes.app] in *. destruct Hp as [q [Hq Hpq]].
    inversion HA as [|g' fsA'' Hg HA']; subst.
    rewrite frames_bytes_cons in Hpc. unfold frame_bytes in Hpq, Hpc.
    destruct (strict_prefix_split _ _ _ _ Hpq Hq) as [[Hlt _]|[Hge _]].
    + (* the header of [g] was incomplete *)
      apply CA; cbn [pending_off pending_siz]; unfold partial_off, partial_siz;
        zbool; reflexivity.
    + rewrite <- !app_assoc in Hpc.
      etransitivity.
      { apply bind_ok. etransitivity.
        - exact (loop_parsed_step [] (frames_bytes fsA' ++ p') g (length (buf st)) 0 st Hg Hpc
                   ltac:(cbn [st off pending_off]; unfold partial_off; zbool; reflexivity)
                   ltac:(cbn [st siz pending_siz]; unfold partial_siz; zbool; reflexivity)).
        - exact (loop_frames fsA' fsB (frame_bytes g) p' (length (buf st))
                   (len [] + len (frame_bytes g))
                   (mkChannel (cnt st) (io st) (buf st) (len [] + len (frame_bytes g)) (-1)
                              (jobs st ++ [g])) HA' HB Hp'
                   ltac:(cbn [buf st]; rewrite Hpc; unfold frame_bytes;
                         rewrite <- !app_assoc; reflexivity)
                   eq_refl eq_refl
                   ltac:(cbn [buf st]; rewrite Hpc, !length_app;
                         pose proof (frames_length fsA');
                         pose proof (header_nonempty g);
                         destruct (header_bytes g); [contradiction|]; simpl; lia)). }
      cbn [cnt io buf jobs st]. rewrite <- app_assoc. cbn [Datatypes.app].
      replace (match fsA' with [] => len [] + len (frame_bytes g)
                              | _ => len (frame_bytes g) + len (frames_bytes fsA') end)
        with (len (frames_bytes (g :: fsA'))).
      2: { rewrite frames_bytes_cons, len_app.
           destruct fsA'; [|reflexivity]. change (len (frames_bytes [])) with 0.
           rewrite len_nil_add. lia. }
      rewrite (compact_app (frames_bytes (g :: fsA')) p').
      * cbn [cnt io buf off siz jobs]. unfold decoder. rewrite frames_bytes_cons, len_app.
        f_equal. f_equal. lia.
      * apply len_frames_pos. discriminate.
      * cbn [buf]. rewrite Hpc, frames_bytes_cons. unfold frame_bytes.
        rewrite <- !app_assoc. reflexivity.
Qed.

Lemma arrive_spec (c : bytes) (st : channel) :
  arrive c st =
  (set_io (mkSocket (written (io st)) (incoming (io st) ++ c)) st, Ok tt).
Proof. reflexivity. Qed.

(** One receive trigger: the chunk [c] arrives after the part [p] of the
    frames [fs]; the complete frames [fsA] are queued and the decoder keeps
    the part [p'] of the frames [fsB] that follow. *)
Lemma trigger_decoder (n : Z) (w : bytes) (fs fsA fsB : list job) (p c p' : bytes)
    (js : list job) :
  Forall (fun j => wf_job j = true) fs -> pending_ok fs p ->
  fs = fsA ++ fsB -> p ++ c = frames_bytes fsA ++ p' -> pending_ok fsB p' ->
  trigger c (decoder n (mkSocket w []) fs p js) =
  (decoder n (mkSocket w []) fsB p' (js ++ fsA), Ok tt).
Proof.
  intros Hwf Hp Hfs Hpc Hp'.
  unfold trigger. rewrite (bind_ok _ _ _ _ _ (arrive_spec _ _)).
  unfold receive, try_except.
  rewrite (bind_ok _ _ _ _ _ (collect_spec _)).
  change (decoder n (mkSocket w []) fs p js)
    with (mkChannel n (mkSocket w []) p (pending_off fs p) (pending_siz fs p) js).
  cbn [cnt io buf off siz jobs written incoming set_io Datatypes.app].
  rewrite (process_decoder n (mkSocket w []) fs fsA fsB p c p' js Hwf Hp Hfs Hpc Hp').
  reflexivity.
Qed.

Lemma pending_ok_frames (fs : list job) (p : bytes) :
  pending_ok fs p -> p = frames_bytes fs -> fs = [] /\ p = [].
Proof.
  destruct fs as [|f fs]; cbn [pending_ok]; [auto|].
  intros [q [Hq E]] Hp. exfalso. subst p.
  rewrite frames_bytes_cons, <- app_assoc in E.
  apply (f_equal len) in E. rewrite !len_app in E.
  pose proof (len_nonneg (frames_bytes fs)).
  destruct q as [|x q]; [contradiction|]. rewrite len_cons in E.
  pose proof (len_nonneg q). lia.
Qed.

(** Successive receive triggers over the chunks [cs] of the rest of the
    frames [fs] queue all of them and leave the decoder empty. *)
Lemma triggers_decoder (cs : list bytes) (n : Z) (w : bytes) (fs : list job) (p : bytes)
    (js : list job) :
  Forall (fun j => wf_job j = true) fs -> pending_ok fs p ->
  p ++ concat cs = frames_bytes fs ->
  triggers cs (decoder n (mkSocket w []) fs p js) =
  (decoder n (mkSocket w []) [] [] (js ++ fs), Ok tt).
Proof.
  revert fs p js. induction cs as [|c cs IH]; intros fs p js Hwf Hp E.
  - cbn [concat] in E. rewrite app_nil_r in E.
    destruct (pending_ok_frames fs p Hp E) as [-> ->].
    rewrite app_nil_r. reflexivity.
  - cbn [concat] in E. rewrite app_assoc in E.
    destruct (frames_decompose fs (p ++ c) (concat cs) E) as [fsA [fsB [p' [Hfs [Hpc Hp']]]]].
    cbn [triggers].
    rewrite (bind_ok _ _ _ _ _ (trigger_decoder n w fs fsA fsB p c p' js Hwf Hp Hfs Hpc Hp')).
    subst fs. apply Forall_app in Hwf as [_ HB].
    rewrite IH; auto.
    + rewrite app_assoc. reflexivity.
    + rewrite Hpc, frames_bytes_app, <- app_assoc in E. apply app_inv_head in E. exact E.
Qed.

Lemma idle_decoder (st : channel) (fs : list job) :
  idle st -> st = decoder (cnt st) (mkSocket (written (io st)) []) fs [] (jobs st).
Proof.
  intros [Hb [Ho [Hs Hi]]]. destruct (pending_nil fs) as [Po Ps].
  unfold decoder. rewrite Po, Ps. destruct st as [n [w i] b o s js]; cbn in *.
  subst. reflexivity.
Qed.

Lemma idle_done (st : channel) (fs : list job) :
  idle st ->
  decoder (cnt st) (mkSocket (written (io st)) []) [] [] (jobs st ++ fs) =
  set_jobs (jobs st ++ fs) st.
Proof.
  intros [Hb [Ho [Hs Hi]]]. destruct st as [n [w i] b o s js]; cbn in *.
  subst. reflexivity.
Qed.

(* ------------------------------------------------------------------------ *)
(** ** Sending *)

Lemma io_send_spec (b : bytes) (st : channel) :
  io_send b st =
  (set_io (mkSocket (written (io st) ++ b) (incoming (io st))) st, Ok tt).
Proof. reflexivity. Qed.

(** [send_format] on a well-formed message writes its frame, in two writes. *)
Lemma send_format_frame (cat : text) (num : Z) (msg : text) (st : channel) :
  wf_job (cat, num, msg) = true ->
  send_format (VStr cat) (VInt num) (VStr msg) st =
  (set_io (mkSocket (written (io st) ++ frame_bytes (cat, num, msg)) (incoming (io st))) st,
   Ok tt).
Proof.
  intros H. set (f := (cat, num, msg)).
  destruct (wf_job_parts cat num msg H) as [_ [_ [Hn _]]].
  unfold send_format. cbn [isinstance_str isinstance_int negb str_val py_str_intlike].
  rewrite (py_str_ok num Hn). cbn [lift_option]. rewrite bind_ret.
  change (cat ++ u ":" ++ py_str_int num ++ u ":" ++ msg) with (body_text f).
  rewrite (proj1 (body_bytes_spec f H)). cbn [lift_option]. rewrite bind_ret.
  replace (ascii_encode (u "@" ++ py_str_int (len (body_bytes f)) ++ u ":"))
    with (Some (header_bytes f)).
  2: { unfold ascii_encode, header_bytes. change (u "@") with [64].
       change (u ":") with [58]. cbn [Datatypes.app forallb].
       rewrite forallb_app, py_str_int_ascii. reflexivity. }
  cbn [lift_option]. rewrite bind_ret.
  rewrite (bind_ok _ _ _ _ _ (io_send_spec _ _)).
  rewrite (bind_ok _ _ _ _ _ (io_send_spec _ _)).
  unfold io_flush, ret. unfold frame_bytes.
  destruct st as [n [w i] b o s js]. unfold set_io.
  cbn [cnt io buf off siz jobs written incoming]. rewrite <- app_assoc. reflexivity.
Qed.

(* ------------------------------------------------------------------------ *)
(** ** What the receive loop changes *)

Lemma grows_refl (st : channel) : grows st st.
Proof. repeat split; try lia. exists []. symmetry. apply app_nil_r. Qed.

Lemma grows_trans (a b c : channel) : grows a b -> grows b c -> grows a c.
Proof.
  intros [H1 [H2 [H3 [H4 [e1 H5]]]]] [G1 [G2 [G3 [G4 [e2 G5]]]]].
  repeat split; try congruence; try lia.
  exists (e1 ++ e2). rewrite G5, H5, app_assoc. reflexivity.
Qed.

Lemma scan_header_grows (i : Z) (n : nat) (size : Z) (st : channel) :
  grows st (fst (scan_header i n size st)).
Proof.
  revert i size. induction n as [|n IH]; intros i size; [apply grows_refl|].
  cbn [scan_header]. mrun.
  destruct (_ && _); [apply IH|].
  destruct (_ =? SEPARATOR); [|apply grows_refl].
  destruct (Z.leb_spec i (off st + 1)); [apply grows_refl|].
  unfold grows, put, set_siz, set_off, set_jobs; cbn [fst cnt io buf off siz jobs];
    repeat split; try lia. exists []. symmetry. apply app_nil_r.
Qed.

Lemma receive_loop_grows (fuel : nat) (bufsiz c : Z) (st : channel) :
  grows st (fst (receive_loop fuel bufsiz c st)).
Proof.
  revert c st. induction fuel as [|fuel IH]; intros c st; [apply grows_refl|].
  (* the body branch, from any state with a known size *)
  assert (HC : forall c s0, 0 <= siz s0 ->
                 grows s0 (fst (receive_loop (S fuel) bufsiz c s0))).
  { intros c0 s0 Hs0. cbn [receive_loop]. mrun. zbool. mrun.
    destruct (bufsiz <? off s0 + siz s0); [apply grows_refl|].
    destruct (0 <? siz s0).
    - destruct (utf8_decode _) as [msg|]; cbn [lift_option];
        [rewrite bind_ret | apply grows_refl].
      mrun.
      set (s1 := set_siz (-1) (set_off (off s0 + siz s0) s0)).
      assert (G1 : grows s0 s1).
      { unfold s1, grows, put, set_siz, set_off, set_jobs; cbn [fst cnt io buf off siz jobs];
    repeat split; try lia. exists []. symmetry. apply app_nil_r. }
      destruct (split_message msg s1) as [s1' [j|e]] eqn:E;
        pose proof (split_message_state _ _ _ _ E); subst s1';
        [rewrite (bind_ok _ _ _ _ _ E) | rewrite (bind_exc _ _ _ _ _ E); exact G1].
      unfold push_job. mrun.
      eapply grows_trans; [exact G1|].
      eapply grows_trans; [|apply IH].
      unfold grows, put, set_siz, set_off, set_jobs; cbn [fst cnt io buf off siz jobs];
    repeat split; try lia. exists [j]. reflexivity.
    - rewrite bind_ret. mrun.
      set (s1 := set_siz (-1) (set_off (off s0 + siz s0) s0)).
      assert (G1 : grows s0 s1).
      { unfold s1, grows, put, set_siz, set_off, set_jobs; cbn [fst cnt io buf off siz jobs];
    repeat split; try lia. exists []. symmetry. apply app_nil_r. }
      destruct (split_message [] s1) as [s1' [j|e]] eqn:E;
        pose proof (split_message_state _ _ _ _ E); subst s1';
        [rewrite (bind_ok _ _ _ _ _ E) | rewrite (bind_exc _ _ _ _ _ E); exact G1].
      unfold push_job. mrun.
      eapply grows_trans; [exact G1|].
      eapply grows_trans; [|apply IH].
      unfold grows, put, set_siz, set_off, set_jobs; cbn [fst cnt io buf off siz jobs];
    repeat split; try lia. exists [j]. reflexivity. }
  destruct (Z.ltb_spec (siz st) 0) as [Hs|Hs]; [|apply HC; lia].
  set (X := if off st <? bufsiz then
              if byte_at (buf st) (off st) =? BEGIN then
                scan_header (off st + 1) (Z.to_nat (bufsiz - (off st + 1))) 0
              else raise (BadMessage "Missing begin message marker")
            else ret tt).
  assert (GX : grows st (fst (X st))).
  { unfold X. destruct (_ <? _); [|apply grows_refl].
    destruct (_ =? _); [apply scan_header_grows | apply grows_refl]. }
  cbn [receive_loop]. mrun. rewrite (proj2 (Z.ltb_lt _ _) Hs). fold X.
  destruct (X st) as [st1 [[]|e]] eqn:EX; cbn [fst] in GX.
  - rewrite (bind_ok _ _ _ _ _ EX). mrun.
    destruct (Z.ltb_spec (siz st1) 0) as [Hs1|Hs1]; [exact GX|].
    pose proof (HC c st1 Hs1) as H1. cbn [receive_loop] in H1. rewrite bind_get in H1.
    rewrite (proj2 (Z.ltb_ge _ _) Hs1) in H1.
    eapply grows_trans; [exact GX | exact H1].
  - rewrite (bind_exc _ _ _ _ _ EX). exact GX.
Qed.

Lemma pending_ok_nil (fs : list job) : pending_ok fs [].
Proof.
  destruct fs as [|f fs]; cbn [pending_ok]; [reflexivity|].
  exists (frame_bytes f). split; [apply frame_nonempty | reflexivity].
Qed.

(* ------------------------------------------------------------------------ *)
(** ** The exception handler of [_receive] *)

Lemma call_disconnect_spec (st : channel) :
  call_disconnect st = (st, Exc (AttributeError "disconnect")).
Proof. reflexivity. Qed.

Lemma compact_ok (consumed : Z) (st : channel) :
  exists st', compact consumed st = (st', Ok tt).
Proof. unfold compact. destruct (0 <? consumed); eexists; reflexivity. Qed.

(** When the loop raises, [process_pending] raises the same exception from
    the same state: nothing is compacted. *)
Lemma process_pending_exc (st st' : channel) (e : exn) :
  process_pending st = (st', Exc e) ->
  receive_loop (S (length (buf st))) (len (buf st)) 0 st = (st', Exc e).
Proof.
  unfold process_pending. rewrite bind_get. intros H.
  destruct (receive_loop (S (length (buf st))) (len (buf st)) 0 st) as [s [a|e']] eqn:E.
  - rewrite (bind_ok _ _ _ _ _ E) in H. destruct (compact_ok a s) as [s' Hs].
    rewrite Hs in H. discriminate.
  - rewrite (bind_exc _ _ _ _ _ E) in H. injection H as -> ->. reflexivity.
Qed.

(* ------------------------------------------------------------------------ *)
(** ** The serial counter *)

(** A serial whose text has too many digits: [str(num)] raises before
    anything is written. *)
Lemma send_format_value_error (cat : text) (num : Z) (msg : text) (st : channel) :
  int_max_str_digits < count_digits (py_str_int num) ->
  send_format (VStr cat) (VInt num) (VStr msg) st = (st, Exc ValueError).
Proof.
  intros H. unfold send_format. cbn [isinstance_str isinstance_int negb py_str_intlike].
  unfold py_str. cbv zeta. zbool. reflexivity.
Qed.

Lemma send_format_cnt (cat num msg : pyval) (st : channel) :
  cnt (fst (send_format cat num msg st)) = cnt st.
Proof.
  unfold send_format.
  destruct (negb (isinstance_str cat)); [reflexivity|].
  destruct (negb (isinstance_int num)); [reflexivity|].
  destruct (negb (isinstance_str msg)); [reflexivity|].
  destruct (py_str_intlike num) as [s|]; [|reflexivity]. cbn [lift_option]. rewrite bind_ret.
  destruct (utf8_encode _) as [b|]; [|reflexivity]. cbn [lift_option]. rewrite bind_ret.
  destruct (ascii_encode _) as [h|]; [|reflexivity]. cbn [lift_option]. rewrite bind_ret.
  rewrite (bind_ok _ _ _ _ _ (io_send_spec _ _)).
  rewrite (bind_ok _ _ _ _ _ (io_send_spec _ _)). reflexivity.
Qed.

Lemma process_pending_cnt (st : channel) : cnt (fst (process_pending st)) = cnt st.
Proof.
  unfold process_pending. rewrite bind_get.
  pose proof (receive_loop_grows (S (length (buf st))) (len (buf st)) 0 st) as [G _].
  destruct (receive_loop (S (length (buf st))) (len (buf st)) 0 st) as [s [a|e]] eqn:E;
    cbn [fst] in G.
  - rewrite (bind_ok _ _ _ _ _ E). unfold compact.
    destruct (0 <? a); [mrun|]; exact G.
  - rewrite (bind_exc _ _ _ _ _ E). exact G.
Qed.

Lemma trigger_cnt (c : bytes) (st : channel) : cnt (fst (trigger c st)) = cnt st.
Proof.
  unfold trigger. rewrite (bind_ok _ _ _ _ _ (arrive_spec _ _)).
  unfold receive, try_except. rewrite (bind_ok _ _ _ _ _ (collect_spec _)).
  match goal with |- context [process_pending ?s] =>
    pose proof (process_pending_cnt s) as H; destruct (process_pending s) as [s' [a|e]]
  end; cbn [fst] in *.
  - exact H.
  - rewrite (bind_exc _ _ _ _ _ (call_disconnect_spec s')). exact H.
Qed.

(** [send_serial] increments the counter, also when [send_format] raises,
    and returns the new value. *)
Lemma send_serial_cnt (cat v : pyval) (st st' : channel) (r : result Z) :
  send_serial cat v st = (st', r) ->
  cnt st' = cnt st + 1 /\ forall n, r = Ok n -> n = cnt st + 1.
Proof.
  unfold send_serial. mrun.
  pose proof (send_format_cnt cat (VInt (cnt st + 1)) v (set_cnt (cnt st + 1) st)) as H.
  destruct (send_format _ _ _ _) as [s2 [[]|e]] eqn:E; cbn [fst] in H.
  - rewrite (bind_ok _ _ _ _ _ E). mrun. unfold ret. intros Heq.
    injection Heq as <- <-. rewrite H. cbn. split; [reflexivity|].
    intros n Hn. injection Hn. lia.
  - rewrite (bind_exc _ _ _ _ _ E). intros Heq. injection Heq as <- <-.
    rewrite H. split; [reflexivity | discriminate].
Qed.

(** The counter after a call, and the serial number it returns. *)
Lemma run_call_cnt (a : api_call) (st st' : channel) (r : result (option Z)) :
  run_call a st = (st', r) ->
  cnt st <= cnt st' /\ forall n, r = Ok (Some n) -> n = cnt st' /\ cnt st < n.
Proof.
  assert (SN : forall (m : M unit) st st' r,
             cnt (fst (m st)) = cnt st ->
             bind m (fun _ => ret None) st = (st', r) ->
             cnt st <= cnt st' /\ forall n, r = Ok (Some n) -> n = cnt st' /\ cnt st < n).
  { intros m s0 s1 r0 H. unfold bind. destruct (m s0) as [s2 [[]|e]]; cbn [fst] in H;
      unfold ret; intros Heq; injection Heq as <- <-; (split; [lia | discriminate]). }
  assert (SA : forall (m : M Z) st st' r,
             (forall st' r, m st = (st', r) ->
                cnt st' = cnt st + 1 /\ forall n, r = Ok n -> n = cnt st + 1) ->
             bind m (fun n => ret (Some n)) st = (st', r) ->
             cnt st <= cnt st' /\ forall n, r = Ok (Some n) -> n = cnt st' /\ cnt st < n).
  { intros m s0 s1 r0 H. unfold bind. destruct (m s0) as [s2 [k|e]] eqn:E;
      destruct (H _ _ eq_refl) as [H1 H2]; unfold ret; intros Heq;
      injection Heq as <- <-.
    - split; [lia|]. intros n Hn. injection Hn as <-.
      specialize (H2 k eq_refl). lia.
    - split; [lia | discriminate]. }
  destruct a; cbn [run_call].
  - apply SA. apply send_serial_cnt.
  - apply SA. apply send_serial_cnt.
  - apply SA. apply send_serial_cnt.
  - apply SN. apply send_format_cnt.
  - apply SN. apply send_format_cnt.
  - apply SN. apply send_format_cnt.
  - apply SN. apply trigger_cnt.
  - intros Heq. unfold pop_job, bind, get in Heq.
    destruct (jobs st); unfold ret, put in Heq; injection Heq as <- <-;
      (split; [unfold set_jobs; cbn [cnt]; lia | discriminate]).
Qed.

Lemma run_calls_sorted (cs : list api_call) (st : channel) :
  StronglySorted Z.lt (run_calls cs st) /\ Forall (Z.lt (cnt st)) (run_calls cs st).
Proof.
  revert st. induction cs as [|a cs IH]; intros st; cbn [run_calls].
  - split; constructor.
  - destruct (run_call a st) as [st' r] eqn:E.
    destruct (run_call_cnt a st st' r E) as [Hle Hn].
    destruct (IH st') as [S1 F1].
    assert (F2 : Forall (Z.lt (cnt st)) (run_calls cs st')).
    { eapply Forall_impl; [|exact F1]. intros x Hx; cbv beta in *; lia. }
    destruct r as [[n|]|e]; try (split; assumption).
    destruct (Hn n eq_refl) as [-> Hlt]. split.
    + constructor; assumption.
    + constructor; assumption.
Qed.

(* ------------------------------------------------------------------------ *)
(** ** The exception handler of [_receive] *)

(** Whatever the [try] block raises, the handler's call of the missing
    method [disconnect] raises [AttributeError] in its place. *)
Lemma receive_handler (st : channel) :
  receive st =
  match (collect;; process_pending) st with
  | (s, Exc _) => (s, Exc (AttributeError "disconnect"))
  | r => r
  end.
Proof.
  unfold receive, try_except.
  destruct ((collect;; process_pending) st) as [s [a|e]]; [reflexivity|].
  apply (bind_exc _ _ _ _ _ (call_disconnect_spec s)).
Qed.

(** A failing receive trigger on an idle decoder, whose chunk starts with
    the complete frames [fs]: the state it leaves is the one the loop
    reached, past those frames. *)
Lemma trigger_exc_state (st st' : channel) (fs : list job) (X : bytes) (e : exn) :
  idle st -> Forall (fun j => wf_job j = true) fs ->
  trigger (frames_bytes fs ++ X) st = (st', Exc e) ->
  grows (mkChannel (cnt st) (mkSocket (written (io st)) []) (frames_bytes fs ++ X)
                   (len (frames_bytes fs)) (-1) (jobs st ++ fs)) st'.
Proof.
  intros [Hb [Ho [Hs Hi]]] Hwf H.
  destruct st as [n [w i] b o s js]; cbn in Hb, Ho, Hs, Hi; subst.
  unfold trigger in H. rewrite (bind_ok _ _ _ _ _ (arrive_spec _ _)) in H.
  rewrite receive_handler in H.
  rewrite (bind_ok _ _ _ _ _ (collect_spec _)) in H.
  cbn [cnt io buf off siz jobs written incoming set_io Datatypes.app] in H.
  set (S1 := mkChannel n (mkSocket w []) (frames_bytes fs ++ X) 0 (-1) js) in H.
  destruct (process_pending S1) as [s [a|e0]] eqn:E; [discriminate|].
  injection H as <- _.
  apply process_pending_exc in E.
  assert (HL : S (length (buf S1)) = (length fs + (S (length (buf S1)) - length fs))%nat).
  { pose proof (frames_length fs). unfold S1. cbn [buf]. rewrite length_app. lia. }
  rewrite HL in E.
  rewrite (loop_prefix fs [] X _ 0 S1 Hwf eq_refl eq_refl eq_refl) in E.
  match type of E with receive_loop ?f ?b ?c ?s = _ =>
    pose proof (receive_loop_grows f b c s) as G end.
  rewrite E in G. exact G.
Qed.

Lemma skipn_cons_len (k : nat) (l r : list Z) (x : Z) :
  skipn k l = x :: r -> (k + S (length r) = length l)%nat.
Proof.
  intros H. pose proof (length_skipn k l) as L. rewrite H in L. cbn [length] in L.
  assert (k < length l)%nat by lia. lia.
Qed.

(* ------------------------------------------------------------------------ *)
(** * The claims *)

(** Claim C1: for a category and payload that UTF-8 can encode, a category
    without [':'] and an [int] serial whose decimal text has at most
    [int_max_str_digits] (4300) digits, [send_format] succeeds and writes
    bytes that one receive trigger on an idle decoder turns into exactly one
    queued message, equal to the original triple. *)
Theorem C1_round_trip (cat : text) (num : Z) (msg : text) (sst rst : channel) :
  wf_job (cat, num, msg) = true -> idle rst ->
  exists sst', send_format (VStr cat) (VInt num) (VStr msg) sst = (sst', Ok tt) /\
  exists bs, written (io sst') = written (io sst) ++ bs /\
    trigger bs rst = (set_jobs (jobs rst ++ [(cat, num, msg)]) rst, Ok tt).
Proof.
  intros Hwf Hi. eexists. split; [exact (send_format_frame cat num msg sst Hwf)|].
  exists (frame_bytes (cat, num, msg)). split; [reflexivity|].
  assert (E : [] ++ frame_bytes (cat, num, msg) = frames_bytes [(cat, num, msg)] ++ []).
  { unfold frames_bytes. cbn [map concat]. rewrite !app_nil_r. reflexivity. }
  pose proof (trigger_decoder (cnt rst) (written (io rst)) [(cat, num, msg)]
                [(cat, num, msg)] [] [] (frame_bytes (cat, num, msg)) [] (jobs rst)
                (Forall_cons _ Hwf (Forall_nil _)) (pending_ok_nil _)
                (eq_sym (app_nil_r _)) E eq_refl) as T.
  rewrite <- (idle_decoder rst [(cat, num, msg)] Hi) in T.
  rewrite T. rewrite (idle_done rst _ Hi). reflexivity.
Qed.

Lemma C1_round_trip_witness :
  (wf_job (u"CMD", 1, u"go") = true /\ idle (new_channel (mkSocket [] []))) /\
  exists sst', send_format (VStr (u"CMD")) (VInt 1) (VStr (u"go"))
                 (new_channel (mkSocket [] [])) = (sst', Ok tt) /\
  exists bs, written (io sst') = written (io (new_channel (mkSocket [] []))) ++ bs /\
    trigger bs (new_channel (mkSocket [] [])) =
    (set_jobs (jobs (new_channel (mkSocket [] [])) ++ [(u"CMD", 1, u"go")])
              (new_channel (mkSocket [] [])), Ok tt).
Proof.
  split; [split; [reflexivity | unfold idle; cbn; repeat split]|].
  apply C1_round_trip; [reflexivity | unfold idle; cbn; repeat split].
Defined.

(** A payload with a lone surrogate (a Python [str] that UTF-8 cannot
    encode) makes [send_format] raise; so does the serial [10 ** 4300], whose
    text has 4301 digits; a [bool] serial, which passes the
    [isinstance(num, int)] check, is written as [True] and the receiver
    queues nothing. *)
Lemma C1_round_trip_counterexample :
  send_format (VStr (u"CMD")) (VInt 1) (VStr [55296]) (new_channel (mkSocket [] [])) =
  (new_channel (mkSocket [] []), Exc UnicodeEncodeError) /\
  send_format (VStr (u"CMD")) (VInt (10 ^ 4300)) (VStr (u"go"))
    (new_channel (mkSocket [] [])) =
  (new_channel (mkSocket [] []), Exc ValueError) /\
  snd (send_format (VStr (u"CMD")) (VBool true) (VStr (u"go"))
         (new_channel (mkSocket [] []))) = Ok tt /\
  written (io (fst (send_format (VStr (u"CMD")) (VBool true) (VStr (u"go"))
                      (new_channel (mkSocket [] []))))) = u"@11:CMD:True:go" /\
  jobs (fst (trigger (u"@11:CMD:True:go") (new_channel (mkSocket [] [])))) = [] /\
  snd (trigger (u"@11:CMD:True:go") (new_channel (mkSocket [] []))) <> Ok tt.
Proof. vm_compute. repeat split; [discriminate]. Qed.

(** Claim C2: splitting the frames of well-formed messages (the frames
    [send_format] writes for a category without [':'] and a serial of at
    most 4300 digits) at arbitrary byte boundaries over successive receive
    triggers queues the same messages, in the same order, and leaves the
    same state, as one trigger with all the bytes: both queue exactly the
    messages [fs]. *)
Theorem C2_fragmentation (st : channel) (fs : list job) (cs : list bytes) :
  idle st -> Forall (fun j => wf_job j = true) fs -> concat cs = frames_bytes fs ->
  triggers cs st = (set_jobs (jobs st ++ fs) st, Ok tt) /\
  trigger (frames_bytes fs) st = (set_jobs (jobs st ++ fs) st, Ok tt).
Proof.
  intros Hi Hwf Hc. split.
  - pose proof (triggers_decoder cs (cnt st) (written (io st)) fs [] (jobs st) Hwf
                  (pending_ok_nil fs) Hc) as T.
    rewrite <- (idle_decoder st fs Hi) in T. rewrite T. rewrite (idle_done st fs Hi).
    reflexivity.
  - pose proof (trigger_decoder (cnt st) (written (io st)) fs fs [] [] (frames_bytes fs)
                  [] (jobs st) Hwf (pending_ok_nil fs) (eq_sym (app_nil_r fs))
                  (eq_sym (app_nil_r _)) eq_refl) as T.
    rewrite <- (idle_decoder st fs Hi) in T. rewrite T. rewrite (idle_done st fs Hi).
    reflexivity.
Qed.

Lemma C2_fragmentation_witness :
  (idle (new_channel (mkSocket [] [])) /\
   Forall (fun j => wf_job j = true) [(u"EVT", 1, u"hi"); (u"CMD", 2, u"a:b")] /\
   concat [u"@8:E"; u"VT:1:hi@9"; u":CMD:2:a"; u":b"] =
   frames_bytes [(u"EVT", 1, u"hi"); (u"CMD", 2, u"a:b")]) /\
  triggers [u"@8:E"; u"VT:1:hi@9"; u":CMD:2:a"; u":b"] (new_channel (mkSocket [] [])) =
  (set_jobs [(u"EVT", 1, u"hi"); (u"CMD", 2, u"a:b")] (new_channel (mkSocket [] [])),
   Ok tt) /\
  trigger (frames_bytes [(u"EVT", 1, u"hi"); (u"CMD", 2, u"a:b")])
    (new_channel (mkSocket [] [])) =
  (set_jobs [(u"EVT", 1, u"hi"); (u"CMD", 2, u"a:b")] (new_channel (mkSocket [] [])),
   Ok tt).
Proof.
  split; [split; [unfold idle; cbn; repeat split | split; [repeat constructor | vm_compute; reflexivity]]|].
  apply (C2_fragmentation (new_channel (mkSocket [] []))
           [(u"EVT", 1, u"hi"); (u"CMD", 2, u"a:b")]
           [u"@8:E"; u"VT:1:hi@9"; u":CMD:2:a"; u":b"]).
  - unfold idle; cbn; repeat split.
  - repeat constructor.
  - vm_compute. reflexivity.
Defined.

(** Claim C3 (what the code does): whatever exception the [try] block of
    [_receive] raises, a framing error included, the handler's call of the
    method [disconnect], which [Channel] does not define, raises
    [AttributeError] instead: the framing error is not the one propagated,
    and no transport is closed. *)
Theorem C3_failure_policy (st st' : channel) (e : exn) :
  (collect;; process_pending) st = (st', Exc e) ->
  receive st = (st', Exc (AttributeError "disconnect")).
Proof. intros H. rewrite receive_handler, H. reflexivity. Qed.

Lemma C3_failure_policy_witness :
  (collect;; process_pending) (new_channel (mkSocket [] (u"x"))) =
  (mkChannel 0 (mkSocket [] []) (u"x") 0 (-1) [],
   Exc (BadMessage "Missing begin message marker")) /\
  receive (new_channel (mkSocket [] (u"x"))) =
  (mkChannel 0 (mkSocket [] []) (u"x") 0 (-1) [], Exc (AttributeError "disconnect")).
Proof.
  split; [vm_compute; reflexivity|].
  apply (C3_failure_policy _ _ (BadMessage "Missing begin message marker")).
  vm_compute. reflexivity.
Defined.

(** On a fresh channel, the byte [x] is a framing error of the [try] block,
    but the receive trigger raises [AttributeError]. *)
Lemma C3_failure_policy_counterexample :
  (arrive (u"x");; collect;; process_pending) (new_channel (mkSocket [] [])) =
  (mkChannel 0 (mkSocket [] []) (u"x") 0 (-1) [],
   Exc (BadMessage "Missing begin message marker")) /\
  trigger (u"x") (new_channel (mkSocket [] [])) =
  (mkChannel 0 (mkSocket [] []) (u"x") 0 (-1) [], Exc (AttributeError "disconnect")).
Proof. split; vm_compute; reflexivity. Qed.

(** Claim C4: while a header is awaited ([_siz < 0]) and a byte is buffered
    at the cursor, the loop raises "Missing begin message marker" at once if
    that byte is not ['@'], whatever follows it; raises "No size specified"
    when ['@'] is directly followed by [':']; and stops without error,
    leaving the state as it is, when ['@'] is followed only by digits up to
    the end of the buffer. *)
Theorem C4_header_parsing (st : channel) (k : nat) (c : Z) :
  siz st < 0 -> 0 <= off st ->
  (forall b R, skipn (Z.to_nat (off st)) (buf st) = b :: R -> b <> BEGIN ->
     receive_loop (S k) (len (buf st)) c st =
     (st, Exc (BadMessage "Missing begin message marker"))) /\
  (forall R, skipn (Z.to_nat (off st)) (buf st) = BEGIN :: SEPARATOR :: R ->
     receive_loop (S k) (len (buf st)) c st =
     (st, Exc (BadMessage "No size specified"))) /\
  (forall ds, skipn (Z.to_nat (off st)) (buf st) = BEGIN :: ds ->
     forallb is_digit ds = true ->
     receive_loop (S k) (len (buf st)) c st = (st, Ok c)).
Proof.
  intros Hs Ho. split; [|split].
  - intros b R H Hb.
    pose proof (skipn_cons_len _ _ _ _ H) as L.
    destruct (nth_skipn_cons _ _ _ _ H) as [Hn _].
    cbn [receive_loop]. mrun. zbool.
    assert (Hlt : off st < len (buf st)) by (unfold len; lia).
    zbool. unfold byte_at. rewrite Hn. zbool.
    apply bind_exc. reflexivity.
  - intros R H.
    pose proof (skipn_cons_len _ _ _ _ H) as L.
    destruct (nth_skipn_cons _ _ _ _ H) as [Hn H1].
    destruct (nth_skipn_cons _ _ _ _ H1) as [Hn1 _].
    cbn [length] in L.
    cbn [receive_loop]. mrun. zbool.
    assert (Hlt : off st < len (buf st)) by (unfold len; lia).
    zbool. unfold byte_at at 1. rewrite Hn. zbool.
    replace (Z.to_nat (len (buf st) - (off st + 1)))
      with (S (length R)) by (unfold len; lia).
    assert (E : scan_header (off st + 1) (S (length R)) 0 st =
                (st, Exc (BadMessage "No size specified"))).
    { cbn [scan_header]. mrun. unfold byte_at.
      replace (Z.to_nat (off st + 1)) with (S (Z.to_nat (off st))) by lia.
      rewrite Hn1. unfold ZERO, NINE, SEPARATOR. zbool. cbn [andb]. zbool.
      reflexivity. }
    apply (bind_exc _ _ _ _ _ E).
  - intros ds H Hd.
    pose proof (skipn_cons_len _ _ _ _ H) as L.
    destruct (nth_skipn_cons _ _ _ _ H) as [Hn H1].
    cbn [receive_loop]. mrun. zbool.
    assert (Hlt : off st < len (buf st)) by (unfold len; lia).
    zbool. unfold byte_at at 1. rewrite Hn. zbool.
    replace (S (Z.to_nat (off st))) with (Z.to_nat (off st + 1)) in H1 by lia.
    rewrite (bind_ok _ _ _ _ _ (scan_header_end ds (off st + 1) (Z.to_nat (len (buf st) - (off st + 1))) 0 st Hd
                                  ltac:(lia) H1 ltac:(unfold len; lia))).
    mrun. zbool. reflexivity.
Qed.

Lemma C4_header_parsing_witness :
  (siz (mkChannel 0 (mkSocket [] []) (u"@12") 0 (-1) []) < 0 /\
   0 <= off (mkChannel 0 (mkSocket [] []) (u"@12") 0 (-1) [])) /\
  receive_loop 1 (len (u"@12")) 0 (mkChannel 0 (mkSocket [] []) (u"@12") 0 (-1) []) =
  (mkChannel 0 (mkSocket [] []) (u"@12") 0 (-1) [], Ok 0).
Proof.
  split; [cbn; lia|].
  apply (proj2 (proj2 (C4_header_parsing (mkChannel 0 (mkSocket [] []) (u"@12") 0 (-1) [])
                         0 0 ltac:(cbn; lia) ltac:(cbn; lia))) (u"12")); reflexivity.
Defined.

(** Claim C5: one receive trigger queues every complete frame of its buffer,
    in arrival order, and nothing else.  The decoder may hold the start [p]
    of a frame from earlier triggers, and the buffer may end with the start
    [p'] of a frame not yet complete: when [p] followed by the chunk [c] is
    the frames of the messages [fsA] followed by [p'], exactly [fsA] is
    queued.  In particular one trigger with exactly the frames of [fs] on an
    idle channel queues [fs], and the output of [send_event "hi"] then
    [send_command "go"] on a fresh channel, fed to one trigger of a fresh
    channel, queues [("EVT", 1, "hi")] then [("CMD", 2, "go")]. *)
Theorem C5_batch_decode :
  (forall (n : Z) (w : bytes) (fs fsA fsB : list job) (p c p' : bytes) (js : list job),
     Forall (fun j => wf_job j = true) fs -> pending_ok fs p ->
     fs = fsA ++ fsB -> p ++ c = frames_bytes fsA ++ p' -> pending_ok fsB p' ->
     trigger c (decoder n (mkSocket w []) fs p js) =
     (decoder n (mkSocket w []) fsB p' (js ++ fsA), Ok tt)) /\
  (forall (st : channel) (fs : list job),
     idle st -> Forall (fun j => wf_job j = true) fs ->
     trigger (frames_bytes fs) st = (set_jobs (jobs st ++ fs) st, Ok tt)) /\
  trigger (written (io (fst (send_command (VStr (u"go"))
                               (fst (send_event (VStr (u"hi"))
                                       (new_channel (mkSocket [] [])))))))) 
    (new_channel (mkSocket [] [])) =
  (set_jobs [(u"EVT", 1, u"hi"); (u"CMD", 2, u"go")] (new_channel (mkSocket [] [])),
   Ok tt).
Proof.
  split; [exact trigger_decoder|]. split.
  - intros st fs Hi Hwf.
    pose proof (trigger_decoder (cnt st) (written (io st)) fs fs [] [] (frames_bytes fs)
                  [] (jobs st) Hwf (pending_ok_nil fs) (eq_sym (app_nil_r fs))
                  (eq_sym (app_nil_r _)) eq_refl) as T.
    rewrite <- (idle_decoder st fs Hi) in T. rewrite T. rewrite (idle_done st fs Hi).
    reflexivity.
  - vm_compute. reflexivity.
Qed.

Lemma C5_batch_decode_witness :
  (idle (new_channel (mkSocket [] [])) /\
   Forall (fun j => wf_job j = true)
     [(u"EVT", 1, u"hi"); (u"CMD", 2, u"go"); (u"OK", 1, u"done")]) /\
  trigger (frames_bytes [(u"EVT", 1, u"hi"); (u"CMD", 2, u"go"); (u"OK", 1, u"done")])
    (new_channel (mkSocket [] [])) =
  (set_jobs [(u"EVT", 1, u"hi"); (u"CMD", 2, u"go"); (u"OK", 1, u"done")]
     (new_channel (mkSocket [] [])), Ok tt).
Proof.
  split; [split; [unfold idle; cbn; repeat split | repeat constructor]|].
  apply (proj1 (proj2 C5_batch_decode)); [unfold idle; cbn; repeat split | repeat constructor].
Defined.

(** Claim C6: from a counter at 0, [send_command "go"] returns 1 and writes
    the frame [@8:CMD:1:go]: the body [CMD:1:go] has 8 bytes. *)
Theorem C6_send_command_go (st : channel) :
  cnt st = 0 ->
  send_command (VStr (u"go")) st =
  (set_io (mkSocket (written (io st) ++ u"@8:CMD:1:go") (incoming (io st))) (set_cnt 1 st),
   Ok 1).
Proof.
  intros Hc. unfold send_command, send_serial. mrun.
  unfold set_cnt at 2. cbn [cnt]. rewrite Hc. change (0 + 1) with 1.
  rewrite (bind_ok _ _ _ _ _ (send_format_frame (u"CMD") 1 (u"go") _ eq_refl)).
  mrun. reflexivity.
Qed.

Lemma C6_send_command_go_witness :
  cnt (new_channel (mkSocket [] [])) = 0 /\
  send_command (VStr (u"go")) (new_channel (mkSocket [] [])) =
  (set_io (mkSocket (written (io (new_channel (mkSocket [] []))) ++ u"@8:CMD:1:go")
                    (incoming (io (new_channel (mkSocket [] [])))))
          (set_cnt 1 (new_channel (mkSocket [] []))), Ok 1).
Proof. split; [reflexivity|]. apply C6_send_command_go. reflexivity. Defined.

(** The bytes written by [send_command "go"] on a fresh channel are not
    [@7:CMD:1:go]. *)
Lemma C6_send_command_go_counterexample :
  written (io (fst (send_command (VStr (u"go")) (new_channel (mkSocket [] []))))) <>
  u"@7:CMD:1:go".
Proof. vm_compute. discriminate. Qed.

(** Claim C7: the body of a message is split at its first two [':']; the
    body raises "Expecting CAT:NUM:MSG" when it has fewer than two [':'] or
    when its first two [':'] are adjacent; an empty category is accepted;
    otherwise the category is the text before the first [':'], the serial
    is [int(mid, base=10)] of the text [mid] between them (which accepts
    surrounding whitespace, a sign, single underscores between digits and
    the decimal digits of any script, and raises [ValueError] on any other
    text or on more than 4300 digits), and the payload is the rest, [':']
    included. *)
Theorem C7_body_parsing (body : text) (st : channel) :
  ((count_occ Z.eq_dec body SEPARATOR < 2)%nat ->
   split_message body st = (st, Exc (BadMessage "Expecting CAT:NUM:MSG"))) /\
  (forall cat mid rest,
     existsb (Z.eqb SEPARATOR) cat = false -> existsb (Z.eqb SEPARATOR) mid = false ->
     body = cat ++ SEPARATOR :: mid ++ SEPARATOR :: rest ->
     split_message body st =
     (st, match mid with
          | [] => Exc (BadMessage "Expecting CAT:NUM:MSG")
          | _ => match py_int10 mid with
                 | Some n => Ok (cat, n, rest)
                 | None => Exc ValueError
                 end
          end)).
Proof.
  split.
  - apply split_message_few.
  - intros cat mid rest Hc Hm ->. apply split_message_parts; assumption.
Qed.

Lemma C7_body_parsing_witness :
  (existsb (Z.eqb SEPARATOR) (u"CMD") = false /\ existsb (Z.eqb SEPARATOR) (u"12") = false /\
   u"CMD:12:a:b" = u"CMD" ++ SEPARATOR :: u"12" ++ SEPARATOR :: u"a:b") /\
  split_message (u"CMD:12:a:b") (new_channel (mkSocket [] [])) =
  (new_channel (mkSocket [] []), Ok (u"CMD", 12, u"a:b")).
Proof.
  split; [repeat split; reflexivity|].
  etransitivity.
  { apply (proj2 (C7_body_parsing (u"CMD:12:a:b") (new_channel (mkSocket [] [])))
             (u"CMD") (u"12") (u"a:b")); reflexivity. }
  vm_compute. reflexivity.
Defined.

(** A body with an empty category is split without error. *)
Lemma C7_body_parsing_counterexample :
  split_message (u":5:x") (new_channel (mkSocket [] [])) =
  (new_channel (mkSocket [] []), Ok ([], 5, u"x")).
Proof. vm_compute. reflexivity. Qed.

(** Claim C8: when the category or the payload is not a [str], or the
    serial is not an [int], [send_format] raises [TypeError] from the state
    it was called in: the transport has received nothing. *)
Theorem C8_send_contract (cat num msg : pyval) (st : channel) :
  isinstance_str cat = false \/ isinstance_int num = false \/ isinstance_str msg = false ->
  exists m, send_format cat num msg st = (st, Exc (TypeError m)).
Proof.
  intros H. unfold send_format.
  destruct (isinstance_str cat) eqn:Ec; cbn [negb]; [|eexists; reflexivity].
  destruct (isinstance_int num) eqn:En; cbn [negb]; [|eexists; reflexivity].
  destruct (isinstance_str msg) eqn:Em; cbn [negb]; [|eexists; reflexivity].
  destruct H as [H|[H|H]]; discriminate.
Qed.

Lemma C8_send_contract_witness :
  (isinstance_str (VStr (u"CMD")) = false \/ isinstance_int (VStr (u"1")) = false \/
   isinstance_str (VStr (u"go")) = false) /\
  exists m, send_format (VStr (u"CMD")) (VStr (u"1")) (VStr (u"go"))
              (new_channel (mkSocket [] [])) =
            (new_channel (mkSocket [] []), Exc (TypeError m)).
Proof.
  split; [right; left; reflexivity|].
  apply C8_send_contract. right. left. reflexivity.
Defined.

(** Claim C9: the counter starts at 0; [send_serial] (hence [send_command]
    and [send_event]) increments it and returns the new value, so the first
    call after construction returns 1; [send_result] and [send_error] write
    the frame with the serial they are given and leave the counter as it
    is, and raise [ValueError] without writing when the serial's text has
    more than [int_max_str_digits] digits; and over any sequence of calls of
    the channel's operations, raising or not, the serials returned are
    strictly increasing. *)
Theorem C9_serial_allocation :
  (forall s, cnt (new_channel s) = 0) /\
  (forall cat v st st' r, send_serial cat v st = (st', r) ->
     cnt st' = cnt st + 1 /\ forall n, r = Ok n -> n = cnt st + 1) /\
  (forall cat v s st' n, send_serial cat v (new_channel s) = (st', Ok n) -> n = 1) /\
  (forall num v st, cnt (fst (send_result num v st)) = cnt st /\
                    cnt (fst (send_error num v st)) = cnt st) /\
  (forall num v st, wf_job (u"OK", num, v) = true ->
     send_result (VInt num) (VStr v) st =
     (set_io (mkSocket (written (io st) ++ frame_bytes (u"OK", num, v)) (incoming (io st)))
             st, Ok tt)) /\
  (forall num v st, wf_job (u"ERR", num, v) = true ->
     send_error (VInt num) (VStr v) st =
     (set_io (mkSocket (written (io st) ++ frame_bytes (u"ERR", num, v)) (incoming (io st)))
             st, Ok tt)) /\
  (forall num v st, int_max_str_digits < count_digits (py_str_int num) ->
     send_result (VInt num) (VStr v) st = (st, Exc ValueError) /\
     send_error (VInt num) (VStr v) st = (st, Exc ValueError)) /\
  (forall cs st, StronglySorted Z.lt (run_calls cs st) /\
                 Forall (Z.lt (cnt st)) (run_calls cs st)).
Proof.
  split; [reflexivity|]. split; [exact send_serial_cnt|].
  split; [intros cat v s st' n H; exact (proj2 (send_serial_cnt _ _ _ _ _ H) n eq_refl)|].
  split; [intros num v st; split; apply send_format_cnt|].
  split; [intros num v st H; exact (send_format_frame _ _ _ st H)|].
  split; [intros num v st H; exact (send_format_frame _ _ _ st H)|].
  split; [intros num v st H; split; apply send_format_value_error; exact H|].
  exact run_calls_sorted.
Qed.

Lemma C9_serial_allocation_witness :
  send_serial (VStr (u"CMD")) (VStr (u"go")) (new_channel (mkSocket [] [])) =
  (fst (send_serial (VStr (u"CMD")) (VStr (u"go")) (new_channel (mkSocket [] []))), Ok 1) /\
  1 = 1.
Proof.
  split; [reflexivity|].
  apply (proj1 (proj2 (proj2 C9_serial_allocation)) (VStr (u"CMD")) (VStr (u"go"))
           (mkSocket [] [])
           (fst (send_serial (VStr (u"CMD")) (VStr (u"go")) (new_channel (mkSocket [] []))))).
  reflexivity.
Defined.

(** Claim C10: when a receive trigger on an idle decoder gets the frames of
    the well-formed messages [fs] (category without [':'], serial of at most
    4300 digits) followed by bytes [X] that raise, the messages [fs] stay
    queued after the exception, and the buffer and the cursor keep the
    progress made: nothing is rolled back. *)
Theorem C10_partial_progress (st st' : channel) (fs : list job) (X : bytes) (e : exn) :
  idle st -> Forall (fun j => wf_job j = true) fs ->
  trigger (frames_bytes fs ++ X) st = (st', Exc e) ->
  (exists extra, jobs st' = jobs st ++ fs ++ extra) /\
  buf st' = frames_bytes fs ++ X /\ len (frames_bytes fs) <= off st'.
Proof.
  intros Hi Hwf H.
  destruct (trigger_exc_state st st' fs X e Hi Hwf H) as [_ [_ [Hb [Ho [extra Hj]]]]].
  cbn [buf off jobs] in Hb, Ho, Hj.
  split; [|split; assumption].
  exists extra. rewrite Hj, app_assoc. reflexivity.
Qed.

Lemma C10_partial_progress_witness :
  (idle (new_channel (mkSocket [] [])) /\
   Forall (fun j => wf_job j = true) [(u"CMD", 1, u"go")] /\
   trigger (frames_bytes [(u"CMD", 1, u"go")] ++ u"x") (new_channel (mkSocket [] [])) =
   (fst (trigger (frames_bytes [(u"CMD", 1, u"go")] ++ u"x") (new_channel (mkSocket [] []))),
    Exc (AttributeError "disconnect"))) /\
  jobs (fst (trigger (frames_bytes [(u"CMD", 1, u"go")] ++ u"x")
               (new_channel (mkSocket [] [])))) = [(u"CMD", 1, u"go")].
Proof.
  split; [split; [unfold idle; cbn; repeat split | split; [repeat constructor | vm_compute; reflexivity]]|].
  destruct (C10_partial_progress (new_channel (mkSocket [] []))
              (fst (trigger (frames_bytes [(u"CMD", 1, u"go")] ++ u"x")
                      (new_channel (mkSocket [] []))))
              [(u"CMD", 1, u"go")] (u"x") (AttributeError "disconnect"))
    as [[extra Hj] _].
  - unfold idle; cbn; repeat split.
  - repeat constructor.
  - vm_compute. reflexivity.
  - rewrite Hj. vm_compute in Hj. vm_compute.
    destruct extra; [reflexivity | discriminate].
Defined.

(* ------------------------------------------------------------------------ *)
(** ** Frames with arbitrary contents *)

(** The scan of a header [@ds:] with any digits [ds]. *)
Lemma header_scan_raw (P ds R : bytes) (st : channel) :
  ds <> [] -> forallb is_digit ds = true ->
  buf st = P ++ BEGIN :: ds ++ SEPARATOR :: R -> off st = len P ->
  (if off st <? len (buf st) then
     if byte_at (buf st) (off st) =? BEGIN then
       scan_header (off st + 1) (Z.to_nat (len (buf st) - (off st + 1))) 0
     else raise (BadMessage "Missing begin message marker")
   else ret tt) st =
  (mkChannel (cnt st) (io st) (buf st) (len P + len ds + 2) (digits_value 0 ds) (jobs st),
   Ok tt).
Proof.
  intros Hne Hd Hb Ho.
  assert (Hds : 0 < len ds).
  { destruct ds as [|d0 ds']; [contradiction|]. rewrite len_cons.
    pose proof (len_nonneg ds'). lia. }
  pose proof (len_nonneg R). pose proof (len_nonneg P).
  assert (Hlen : len (buf st) = len P + len ds + 2 + len R).
  { rewrite Hb, len_app, len_cons, len_app, len_cons. lia. }
  rewrite Ho, Hlen. zbool.
  replace (byte_at (buf st) (len P)) with BEGIN
    by (rewrite Hb; symmetry; apply byte_at_len_app).
  rewrite Z.eqb_refl.
  rewrite (scan_header_sep ds (len P + 1) _ 0 st R); auto; try lia.
  - unfold set_siz, set_off. cbn [cnt io buf off siz jobs]. do 2 f_equal. lia.
  - rewrite Hb.
    replace (P ++ BEGIN :: ds ++ SEPARATOR :: R)
      with ((P ++ [BEGIN]) ++ ds ++ SEPARATOR :: R)
      by (rewrite <- app_assoc; reflexivity).
    replace (len P + 1) with (len (P ++ [BEGIN])) by (rewrite len_app; reflexivity).
    apply skipn_len_app.
  - unfold len in *. lia.
Qed.

(** A complete frame [@ds:body] at the cursor, whatever its body: the body
    is decoded, split and its message queued, or the loop raises. *)
Lemma loop_raw_frame (P ds body R : bytes) (fuel : nat) (c : Z) (st : channel) :
  ds <> [] -> forallb is_digit ds = true -> digits_value 0 ds = len body ->
  buf st = P ++ BEGIN :: ds ++ SEPARATOR :: body ++ R -> off st = len P -> siz st = -1 ->
  receive_loop (S fuel) (len (buf st)) c st =
  match (if 0 <? len body then utf8_decode body else Some []) with
  | None =>
      (mkChannel (cnt st) (io st) (buf st) (len P + len ds + 2) (len body) (jobs st),
       Exc UnicodeDecodeError)
  | Some msg =>
      match split_message msg (mkChannel (cnt st) (io st) (buf st)
                                 (len P + len ds + 2 + len body) (-1) (jobs st)) with
      | (_, Exc e) =>
          (mkChannel (cnt st) (io st) (buf st) (len P + len ds + 2 + len body) (-1) (jobs st),
           Exc e)
      | (_, Ok j) =>
          receive_loop fuel (len (buf st)) (len P + len ds + 2 + len body)
            (mkChannel (cnt st) (io st) (buf st) (len P + len ds + 2 + len body) (-1)
                       (jobs st ++ [j]))
      end
  end.
Proof.
  intros Hne Hd Hv Hb Ho Hs.
  pose proof (len_nonneg R). pose proof (len_nonneg P). pose proof (len_nonneg body).
  assert (Hlen : len (buf st) = len P + len ds + 2 + len body + len R).
  { rewrite Hb, len_app, len_cons, len_app, len_cons, len_app. lia. }
  set (st1 := mkChannel (cnt st) (io st) (buf st) (len P + len ds + 2) (len body) (jobs st)).
  rewrite (loop_after_scan fuel (len (buf st)) c st st1); [| lia | | unfold st1; cbn [siz]; lia].
  2: { rewrite (header_scan_raw P ds (body ++ R) st Hne Hd Hb Ho), Hv. reflexivity. }
  cbn [receive_loop]. mrun.
  change (off st1) with (len P + len ds + 2). change (siz st1) with (len body).
  change (buf st1) with (buf st). zbool. mrun.
  change (off st1) with (len P + len ds + 2). change (siz st1) with (len body).
  change (buf st1) with (buf st). zbool.
  assert (Hsome : forall msg,
    (msg <- ret msg;;
     st0 <- get;;
     put (set_siz (-1) (set_off (off st0 + siz st0) st0));;
     st2 <- get;;
     j <- split_message msg;;
     push_job j;; receive_loop fuel (len (buf st)) (off st2)) st1 =
    match split_message msg (mkChannel (cnt st) (io st) (buf st)
                               (len P + len ds + 2 + len body) (-1) (jobs st)) with
    | (_, Exc e) =>
        (mkChannel (cnt st) (io st) (buf st) (len P + len ds + 2 + len body) (-1) (jobs st),
         Exc e)
    | (_, Ok j) =>
        receive_loop fuel (len (buf st)) (len P + len ds + 2 + len body)
          (mkChannel (cnt st) (io st) (buf st) (len P + len ds + 2 + len body) (-1)
                     (jobs st ++ [j]))
    end).
  { intros msg. rewrite bind_ret. mrun.
    unfold set_siz, set_off, st1. cbn [cnt io buf off siz jobs].
    destruct (split_message msg _) as [s [j|e]] eqn:E;
      pose proof (split_message_state _ _ _ _ E); subst s.
    - rewrite (bind_ok _ _ _ _ _ E). unfold push_job. mrun.
      unfold set_jobs. cbn [cnt io buf off siz jobs]. reflexivity.
    - rewrite (bind_exc _ _ _ _ _ E). reflexivity. }
  destruct (0 <? len body) eqn:Ep.
  - replace (py_slice (buf st) (len P + len ds + 2) (len P + len ds + 2 + len body))
      with body.
    2: { rewrite Hb.
         replace (P ++ BEGIN :: ds ++ SEPARATOR :: body ++ R)
           with ((P ++ BEGIN :: ds ++ [SEPARATOR]) ++ body ++ R)
           by (rewrite <- app_assoc; cbn [Datatypes.app]; rewrite <- app_assoc; reflexivity).
         replace (len P + len ds + 2) with (len (P ++ BEGIN :: ds ++ [SEPARATOR]))
           by (rewrite len_app, len_cons, len_app; change (len [SEPARATOR]) with 1; lia).
         symmetry. apply py_slice_app. }
    destruct (utf8_decode body) as [msg|]; cbn [lift_option].
    + exact (Hsome msg).
    + reflexivity.
  - exact (Hsome []).
Qed.

(** A byte that is neither a digit nor [':'] after the digits [ds]. *)
Lemma scan_header_bad (ds : list Z) (b : Z) (i : Z) (n : nat) (size : Z) (st : channel) R :
  forallb is_digit ds = true -> is_digit b = false -> b <> SEPARATOR -> 0 <= i ->
  skipn (Z.to_nat i) (buf st) = ds ++ b :: R -> (length ds < n)%nat ->
  scan_header i n size st = (st, Exc (BadMessage "Expecting digits or separator")).
Proof.
  revert i n size. induction ds as [|d ds IH]; intros i n size Hd Hb Hsep Hi Hs Hn;
    destruct n as [|n]; simpl in Hn; try lia; simpl in Hs;
    destruct (nth_skipn_cons _ _ _ _ Hs) as [Hx Hs'];
    cbn [scan_header]; unfold bind, get; unfold byte_at; rewrite Hx.
  - unfold is_digit in Hb. unfold ZERO, NINE. rewrite Hb.
    rewrite (proj2 (Z.eqb_neq b SEPARATOR) Hsep). reflexivity.
  - simpl in Hd. apply andb_prop in Hd as [Hd Hds].
    unfold is_digit in Hd. unfold ZERO, NINE. rewrite Hd.
    apply IH; auto; try lia.
    replace (Z.to_nat (i + 1)) with (S (Z.to_nat i)) by lia. exact Hs'.
Qed.

(** [process_pending] keeps the counter and the transport, and only appends
    to the queue. *)
Lemma process_pending_keeps (st : channel) :
  cnt (fst (process_pending st)) = cnt st /\ io (fst (process_pending st)) = io st /\
  exists extra, jobs (fst (process_pending st)) = jobs st ++ extra.
Proof.
  unfold process_pending. rewrite bind_get.
  pose proof (receive_loop_grows (S (length (buf st))) (len (buf st)) 0 st)
    as [G1 [G2 [_ [_ G5]]]].
  destruct (receive_loop (S (length (buf st))) (len (buf st)) 0 st) as [s [a|e]] eqn:E;
    cbn [fst] in G1, G2, G5.
  - rewrite (bind_ok _ _ _ _ _ E). unfold compact.
    destruct (0 <? a); [mrun|]; unfold set_off, set_buf; cbn [fst cnt io jobs];
      auto.
  - rewrite (bind_exc _ _ _ _ _ E). auto.
Qed.

Lemma more_jobs_spec (st : channel) :
  more_jobs st = (st, Ok (1 <=? len (jobs st))).
Proof. reflexivity. Qed.

Lemma print_jobs_spec (fuel : nat) (st : channel) :
  (length (jobs st) <= fuel)%nat ->
  print_jobs fuel st = (set_jobs [] st, Ok (map Some (jobs st))).
Proof.
  revert st. induction fuel as [|fuel IH]; intros st H.
  - destruct st as [n s b o z [|j js]]; cbn in H; [reflexivity | lia].
  - cbn [print_jobs]. rewrite (bind_ok _ _ _ _ _ (more_jobs_spec st)).
    destruct (jobs st) as [|j js] eqn:Ej.
    + change (1 <=? len (@nil job)) with false. cbv beta iota.
      unfold ret, set_jobs. destruct st; cbn in *. subst. reflexivity.
    + rewrite len_cons. pose proof (len_nonneg js). zbool.
      assert (Hp : pop_job st = (set_jobs js st, Ok (Some j))).
      { unfold pop_job. mrun. rewrite Ej. reflexivity. }
      rewrite (bind_ok _ _ _ _ _ Hp).
      cbn [length] in H.
      rewrite (bind_ok _ _ _ _ _ (IH (set_jobs js st) ltac:(cbn; lia))).
      unfold ret, set_jobs. cbn [jobs]. reflexivity.
Qed.

Lemma send_jobs_spec (js : list job) (st : channel) :
  Forall (fun j => wf_job j = true) js ->
  send_jobs js st =
  (set_io (mkSocket (written (io st) ++ frames_bytes js) (incoming (io st))) st, Ok tt).
Proof.
  revert st. induction js as [|[[cat num] msg] js IH]; intros st H.
  - destruct st as [n [w i] b o s q]. unfold set_io. cbn. rewrite app_nil_r. reflexivity.
  - inversion H as [|j' js' Hj Hjs]; subst. cbn [send_jobs].
    rewrite (bind_ok _ _ _ _ _ (send_format_frame cat num msg st Hj)).
    rewrite (IH _ Hjs). rewrite frames_bytes_cons.
    destruct st as [n [w i] b o s q]. unfold set_io. cbn [cnt io buf off siz jobs written incoming].
    rewrite app_assoc. reflexivity.
Qed.

(** Splitting a body whose first [':'] is at [len a]: the category is [a]. *)
Lemma split_message_cat (a r : text) (st st' : channel) (j : job) :
  existsb (Z.eqb SEPARATOR) a = false ->
  split_message (a ++ SEPARATOR :: r) st = (st', Ok j) -> fst (fst j) = a.
Proof.
  intros Ha. unfold split_message.
  rewrite py_find_0, find_from_app by exact Ha. rewrite Z.add_0_l.
  pose proof (len_nonneg a). zbool.
  destruct (_ <? len a + 2); [discriminate|].
  replace (py_slice (a ++ SEPARATOR :: r) 0 (len a)) with a
    by (symmetry; exact (py_slice_app [] a (SEPARATOR :: r))).
  unfold bind, lift_option.
  destruct (py_int10 _); [|discriminate].
  unfold ret. intros E. injection E as _ <-. reflexivity.
Qed.

Lemma send_format_type_error (cat num msg : pyval) (st : channel) :
  isinstance_str cat = false \/ isinstance_int num = false \/ isinstance_str msg = false ->
  exists m, send_format cat num msg st = (st, Exc (TypeError m)).
Proof.
  intros H. unfold send_format.
  destruct (isinstance_str cat); cbn [negb]; [|eexists; reflexivity].
  destruct (isinstance_int num); cbn [negb]; [|eexists; reflexivity].
  destruct (isinstance_str msg); cbn [negb]; [|eexists; reflexivity].
  destruct H as [H|[H|H]]; discriminate.
Qed.

(* ------------------------------------------------------------------------ *)
(** * Further properties of the code *)

(** A frame whose header announces a size of 0 is rejected: its body is
    the empty string, which has no [':'], and the loop raises
    "Expecting CAT:NUM:MSG" with the cursor already past the frame. *)
Theorem zero_size_frame_rejected (P ds R : bytes) (fuel : nat) (c : Z) (st : channel) :
  ds <> [] -> forallb is_digit ds = true -> digits_value 0 ds = 0 ->
  buf st = P ++ BEGIN :: ds ++ SEPARATOR :: R -> off st = len P -> siz st = -1 ->
  receive_loop (S fuel) (len (buf st)) c st =
  (mkChannel (cnt st) (io st) (buf st) (len P + len ds + 2) (-1) (jobs st),
   Exc (BadMessage "Expecting CAT:NUM:MSG")).
Proof.
  intros Hne Hd Hv Hb Ho Hs.
  rewrite (loop_raw_frame P ds [] R fuel c st Hne Hd Hv Hb Ho Hs).
  change (0 <? len (@nil Z)) with false. cbv iota.
  rewrite split_message_few by (cbn; lia).
  change (len (@nil Z)) with 0. rewrite Z.add_0_r. reflexivity.
Qed.

Lemma zero_size_frame_rejected_witness :
  (u"0" <> [] /\ forallb is_digit (u"0") = true /\ digits_value 0 (u"0") = 0 /\
   buf (mkChannel 0 (mkSocket [] []) (u"@0:CMD:1:go") 0 (-1) []) =
   [] ++ BEGIN :: u"0" ++ SEPARATOR :: u"CMD:1:go" /\
   off (mkChannel 0 (mkSocket [] []) (u"@0:CMD:1:go") 0 (-1) []) = len (@nil Z) /\
   siz (mkChannel 0 (mkSocket [] []) (u"@0:CMD:1:go") 0 (-1) []) = -1) /\
  receive_loop 12 (len (u"@0:CMD:1:go")) 0
    (mkChannel 0 (mkSocket [] []) (u"@0:CMD:1:go") 0 (-1) []) =
  (mkChannel 0 (mkSocket [] []) (u"@0:CMD:1:go") 3 (-1) [],
   Exc (BadMessage "Expecting CAT:NUM:MSG")).
Proof.
  split; [repeat split; first [discriminate | reflexivity]|].
  apply (zero_size_frame_rejected [] (u"0") (u"CMD:1:go") 11 0
           (mkChannel 0 (mkSocket [] []) (u"@0:CMD:1:go") 0 (-1) []));
    [discriminate | reflexivity ..].
Defined.

(** A complete frame whose body is not valid UTF-8 makes the loop raise
    [UnicodeDecodeError]; the header has been consumed: the cursor is at the
    body, whose size is recorded. *)
Theorem invalid_utf8_body_rejected (P ds body R : bytes) (fuel : nat) (c : Z)
    (st : channel) :
  ds <> [] -> forallb is_digit ds = true -> digits_value 0 ds = len body ->
  utf8_decode body = None ->
  buf st = P ++ BEGIN :: ds ++ SEPARATOR :: body ++ R -> off st = len P -> siz st = -1 ->
  receive_loop (S fuel) (len (buf st)) c st =
  (mkChannel (cnt st) (io st) (buf st) (len P + len ds + 2) (len body) (jobs st),
   Exc UnicodeDecodeError).
Proof.
  intros Hne Hd Hv Hu Hb Ho Hs.
  rewrite (loop_raw_frame P ds body R fuel c st Hne Hd Hv Hb Ho Hs).
  destruct body as [|b0 bs]; [discriminate|].
  rewrite len_cons. pose proof (len_nonneg bs). zbool. rewrite Hu. reflexivity.
Qed.

Lemma invalid_utf8_body_rejected_witness :
  (u"1" <> [] /\ forallb is_digit (u"1") = true /\ digits_value 0 (u"1") = len [255] /\
   utf8_decode [255] = None /\
   buf (mkChannel 0 (mkSocket [] []) (u"@1:" ++ [255]) 0 (-1) []) =
   [] ++ BEGIN :: u"1" ++ SEPARATOR :: [255] ++ [] /\
   off (mkChannel 0 (mkSocket [] []) (u"@1:" ++ [255]) 0 (-1) []) = len (@nil Z) /\
   siz (mkChannel 0 (mkSocket [] []) (u"@1:" ++ [255]) 0 (-1) []) = -1) /\
  receive_loop 5 (len (u"@1:" ++ [255])) 0
    (mkChannel 0 (mkSocket [] []) (u"@1:" ++ [255]) 0 (-1) []) =
  (mkChannel 0 (mkSocket [] []) (u"@1:" ++ [255]) 3 1 [], Exc UnicodeDecodeError).
Proof.
  split; [repeat split; first [discriminate | reflexivity]|].
  apply (invalid_utf8_body_rejected [] (u"1") [255] [] 4 0
           (mkChannel 0 (mkSocket [] []) (u"@1:" ++ [255]) 0 (-1) []));
    [discriminate | reflexivity ..].
Defined.

(** While a header is awaited, ['@'] followed by digits and then a byte that
    is neither a digit nor [':'] makes the loop raise
    "Expecting digits or separator", leaving the state as it is. *)
Theorem bad_header_byte_rejected (st : channel) (ds : list Z) (b : Z) (R : list Z)
    (k : nat) (c : Z) :
  siz st < 0 -> 0 <= off st ->
  skipn (Z.to_nat (off st)) (buf st) = BEGIN :: ds ++ b :: R ->
  forallb is_digit ds = true -> is_digit b = false -> b <> SEPARATOR ->
  receive_loop (S k) (len (buf st)) c st =
  (st, Exc (BadMessage "Expecting digits or separator")).
Proof.
  intros Hs Ho H Hd Hb Hsep.
  pose proof (skipn_cons_len _ _ _ _ H) as L.
  destruct (nth_skipn_cons _ _ _ _ H) as [Hn H1].
  rewrite length_app in L. cbn [length] in L.
  cbn [receive_loop]. mrun. zbool.
  assert (Hlt : off st < len (buf st)) by (unfold len; lia).
  zbool. unfold byte_at at 1. rewrite Hn. zbool.
  replace (S (Z.to_nat (off st))) with (Z.to_nat (off st + 1)) in H1 by lia.
  rewrite (bind_exc _ _ _ _ _
             (scan_header_bad ds b (off st + 1) (Z.to_nat (len (buf st) - (off st + 1))) 0
                st R Hd Hb Hsep ltac:(lia) H1 ltac:(unfold len; lia))).
  reflexivity.
Qed.

Lemma bad_header_byte_rejected_witness :
  (siz (mkChannel 0 (mkSocket [] []) (u"@12x:") 0 (-1) []) < 0 /\
   0 <= off (mkChannel 0 (mkSocket [] []) (u"@12x:") 0 (-1) []) /\
   skipn (Z.to_nat (off (mkChannel 0 (mkSocket [] []) (u"@12x:") 0 (-1) [])))
     (buf (mkChannel 0 (mkSocket [] []) (u"@12x:") 0 (-1) [])) =
   BEGIN :: u"12" ++ 120 :: u":" /\
   forallb is_digit (u"12") = true /\ is_digit 120 = false /\ 120 <> SEPARATOR) /\
  receive_loop 1 (len (u"@12x:")) 0 (mkChannel 0 (mkSocket [] []) (u"@12x:") 0 (-1) []) =
  (mkChannel 0 (mkSocket [] []) (u"@12x:") 0 (-1) [],
   Exc (BadMessage "Expecting digits or separator")).
Proof.
  split; [repeat split; try reflexivity; try (cbn; lia); discriminate|].
  apply (bad_header_byte_rejected (mkChannel 0 (mkSocket [] []) (u"@12x:") 0 (-1) [])
           (u"12") 120 (u":") 0 0);
    [cbn; lia | cbn; lia | reflexivity | reflexivity | reflexivity | discriminate].
Defined.

(** A complete header whose body is not all buffered yet: the loop records
    the parsed header (cursor at the body, [_siz] its size) and stops
    without error; the header is not parsed again on the next call. *)
Theorem incomplete_body_waits (P ds q : bytes) (fuel : nat) (c : Z) (st : channel) :
  ds <> [] -> forallb is_digit ds = true -> len q < digits_value 0 ds ->
  buf st = P ++ BEGIN :: ds ++ SEPARATOR :: q -> off st = len P -> siz st = -1 ->
  receive_loop (S fuel) (len (buf st)) c st =
  (mkChannel (cnt st) (io st) (buf st) (len P + len ds + 2) (digits_value 0 ds) (jobs st),
   Ok c).
Proof.
  intros Hne Hd Hq Hb Ho Hs.
  pose proof (len_nonneg q).
  rewrite (loop_after_scan fuel (len (buf st)) c st
             (mkChannel (cnt st) (io st) (buf st) (len P + len ds + 2) (digits_value 0 ds)
                (jobs st))); [| lia | exact (header_scan_raw P ds q st Hne Hd Hb Ho) |
                              cbn [siz]; lia].
  apply loop_parsed_wait; cbn [siz off]; [lia|].
  rewrite Hb, len_app, len_cons, len_app, len_cons. lia.
Qed.

Lemma incomplete_body_waits_witness :
  (u"8" <> [] /\ forallb is_digit (u"8") = true /\ len (u"CMD") < digits_value 0 (u"8") /\
   buf (mkChannel 0 (mkSocket [] []) (u"@8:CMD") 0 (-1) []) =
   [] ++ BEGIN :: u"8" ++ SEPARATOR :: u"CMD" /\
   off (mkChannel 0 (mkSocket [] []) (u"@8:CMD") 0 (-1) []) = len (@nil Z) /\
   siz (mkChannel 0 (mkSocket [] []) (u"@8:CMD") 0 (-1) []) = -1) /\
  receive_loop 7 (len (u"@8:CMD")) 0 (mkChannel 0 (mkSocket [] []) (u"@8:CMD") 0 (-1) []) =
  (mkChannel 0 (mkSocket [] []) (u"@8:CMD") 3 8 [], Ok 0).
Proof.
  split; [repeat split; first [discriminate | reflexivity | vm_compute; reflexivity]|].
  apply (incomplete_body_waits [] (u"8") (u"CMD") 6 0
           (mkChannel 0 (mkSocket [] []) (u"@8:CMD") 0 (-1) []));
    [discriminate | reflexivity | vm_compute; reflexivity | reflexivity ..].
Defined.

(** Whether it succeeds or raises, [_receive] leaves the serial counter as
    it is, sends nothing, leaves nothing pending on the transport, and only
    appends messages to the job queue. *)
Theorem receive_keeps (st st' : channel) (r : result unit) :
  receive st = (st', r) ->
  cnt st' = cnt st /\ written (io st') = written (io st) /\ incoming (io st') = [] /\
  exists extra, jobs st' = jobs st ++ extra.
Proof.
  rewrite receive_handler, (bind_ok _ _ _ _ _ (collect_spec st)).
  match goal with |- context [process_pending ?s] =>
    pose proof (process_pending_keeps s) as [K1 [K2 K3]];
    destruct (process_pending s) as [s1 [a|e]]
  end; cbn [fst cnt io jobs] in K1, K2, K3;
    intros H; injection H as <- _; rewrite K1, K2; cbn; auto.
Qed.

Lemma receive_keeps_witness :
  receive (mkChannel 4 (mkSocket (u"out") (u"@8:CMD:1:go@")) [] 0 (-1) []) =
  (mkChannel 4 (mkSocket (u"out") []) (u"@") 0 (-1) [(u"CMD", 1, u"go")], Ok tt) /\
  cnt (mkChannel 4 (mkSocket (u"out") []) (u"@") 0 (-1) [(u"CMD", 1, u"go")]) = 4.
Proof.
  split; [vm_compute; reflexivity|].
  destruct (receive_keeps (mkChannel 4 (mkSocket (u"out") (u"@8:CMD:1:go@")) [] 0 (-1) [])
              (mkChannel 4 (mkSocket (u"out") []) (u"@") 0 (-1) [(u"CMD", 1, u"go")])
              (Ok tt) ltac:(vm_compute; reflexivity)) as [H _].
  exact H.
Defined.

(** After a receive trigger on a stream of well-formed frames, every
    complete frame has been queued and dropped from the buffer: the buffer
    holds only the received part [p'] of the next frame, shorter than that
    frame. *)
Theorem trigger_compacts (n : Z) (w : bytes) (fs fsA fsB : list job) (p c p' : bytes)
    (js : list job) :
  Forall (fun j => wf_job j = true) fs -> pending_ok fs p ->
  fs = fsA ++ fsB -> p ++ c = frames_bytes fsA ++ p' -> pending_ok fsB p' ->
  buf (fst (trigger c (decoder n (mkSocket w []) fs p js))) = p' /\
  jobs (fst (trigger c (decoder n (mkSocket w []) fs p js))) = js ++ fsA /\
  snd (trigger c (decoder n (mkSocket w []) fs p js)) = Ok tt.
Proof.
  intros Hwf Hp Hfs Hpc Hp'.
  rewrite (trigger_decoder n w fs fsA fsB p c p' js Hwf Hp Hfs Hpc Hp').
  repeat split.
Qed.

Lemma trigger_compacts_witness :
  (Forall (fun j => wf_job j = true) [(u"EVT", 1, u"hi"); (u"CMD", 2, u"go")] /\
   pending_ok [(u"EVT", 1, u"hi"); (u"CMD", 2, u"go")] (u"@8:EV") /\
   [(u"EVT", 1, u"hi"); (u"CMD", 2, u"go")] = [(u"EVT", 1, u"hi")] ++ [(u"CMD", 2, u"go")] /\
   u"@8:EV" ++ u"T:1:hi@8:CMD" = frames_bytes [(u"EVT", 1, u"hi")] ++ u"@8:CMD" /\
   pending_ok [(u"CMD", 2, u"go")] (u"@8:CMD")) /\
  buf (fst (trigger (u"T:1:hi@8:CMD")
              (decoder 0 (mkSocket [] []) [(u"EVT", 1, u"hi"); (u"CMD", 2, u"go")]
                 (u"@8:EV") []))) = u"@8:CMD".
Proof.
  assert (H1 : pending_ok [(u"EVT", 1, u"hi"); (u"CMD", 2, u"go")] (u"@8:EV")).
  { exists (u"T:1:hi"). split; [discriminate | vm_compute; reflexivity]. }
  assert (H2 : pending_ok [(u"CMD", 2, u"go")] (u"@8:CMD")).
  { exists (u":2:go"). split; [discriminate | vm_compute; reflexivity]. }
  split; [repeat split; first [exact H1 | exact H2 | repeat constructor | vm_compute; reflexivity]|].
  exact (proj1 (trigger_compacts 0 [] [(u"EVT", 1, u"hi"); (u"CMD", 2, u"go")]
                  [(u"EVT", 1, u"hi")] [(u"CMD", 2, u"go")] (u"@8:EV") (u"T:1:hi@8:CMD")
                  (u"@8:CMD") [] ltac:(repeat constructor) H1 eq_refl
                  ltac:(vm_compute; reflexivity) H2)).
Defined.

(** [send_format] never writes part of a frame: it either raises from the
    state it was called in, or writes the header [@SIZE:] and the encoded
    body [b] (the text [cat:str(num):msg]), where [SIZE] counts the bytes of
    [b], not its characters. *)
Theorem send_format_whole_frame (cat num msg : pyval) (st : channel) :
  (exists e, send_format cat num msg st = (st, Exc e)) \/
  exists s b,
    py_str_intlike num = Some s /\
    utf8_encode (str_val cat ++ u":" ++ s ++ u":" ++ str_val msg) = Some b /\
    send_format cat num msg st =
    (set_io (mkSocket (written (io st) ++ u"@" ++ py_str_int (len b) ++ u":" ++ b)
                      (incoming (io st))) st, Ok tt).
Proof.
  unfold send_format.
  destruct (negb (isinstance_str cat)); [left; eexists; reflexivity|].
  destruct (negb (isinstance_int num)); [left; eexists; reflexivity|].
  destruct (negb (isinstance_str msg)); [left; eexists; reflexivity|].
  destruct (py_str_intlike num) as [s|]; [|left; eexists; reflexivity].
  cbn [lift_option]. rewrite bind_ret.
  destruct (utf8_encode _) as [b|] eqn:Eb; [|left; eexists; reflexivity].
  right. exists s, b. split; [reflexivity|]. split; [exact Eb|].
  cbn [lift_option]. rewrite bind_ret.
  replace (ascii_encode (u "@" ++ py_str_int (len b) ++ u ":"))
    with (Some (u "@" ++ py_str_int (len b) ++ u ":")).
  2: { unfold ascii_encode. change (u "@") with [64].
       change (u ":") with [58]. cbn [Datatypes.app forallb].
       rewrite forallb_app, py_str_int_ascii. reflexivity. }
  cbn [lift_option]. rewrite bind_ret.
  rewrite (bind_ok _ _ _ _ _ (io_send_spec _ _)).
  rewrite (bind_ok _ _ _ _ _ (io_send_spec _ _)).
  unfold io_flush, ret.
  destruct st as [n [w i] bf o sz js]. unfold set_io.
  cbn [cnt io buf off siz jobs written incoming]. rewrite <- !app_assoc. reflexivity.
Qed.

(** An auto-numbered send whose category or message is not a [str] raises
    [TypeError] and writes nothing, but the serial number is used up: the
    counter has been incremented before the check. *)
Theorem send_serial_type_error (cat msg : pyval) (st : channel) :
  isinstance_str cat = false \/ isinstance_str msg = false ->
  exists m, send_serial cat msg st = (set_cnt (cnt st + 1) st, Exc (TypeError m)).
Proof.
  intros H. unfold send_serial. mrun.
  destruct (send_format_type_error cat (VInt (cnt (set_cnt (cnt st + 1) st))) msg
              (set_cnt (cnt st + 1) st) ltac:(tauto)) as [m Hm].
  exists m. rewrite (bind_exc _ _ _ _ _ Hm). reflexivity.
Qed.

Lemma send_serial_type_error_witness :
  (isinstance_str (VStr (u"CMD")) = false \/ isinstance_str (VInt 5) = false) /\
  exists m, send_serial (VStr (u"CMD")) (VInt 5) (new_channel (mkSocket [] [])) =
            (set_cnt 1 (new_channel (mkSocket [] [])), Exc (TypeError m)).
Proof.
  split; [right; reflexivity|].
  apply (send_serial_type_error (VStr (u"CMD")) (VInt 5) (new_channel (mkSocket [] []))).
  right. reflexivity.
Defined.

(** The demo's loop [while chn.more_jobs(): print(chn.pop_job())] prints
    the queued messages in the order they were queued, and empties the
    queue. *)
Theorem print_jobs_fifo (fuel : nat) (st : channel) :
  (length (jobs st) <= fuel)%nat ->
  print_jobs fuel st = (set_jobs [] st, Ok (map Some (jobs st))).
Proof.
  revert st. induction fuel as [|fuel IH]; intros st H.
  - destruct st as [n s b o z [|j js]]; cbn in H; [reflexivity | lia].
  - cbn [print_jobs]. rewrite (bind_ok _ _ _ _ _ (more_jobs_spec st)).
    destruct (jobs st) as [|j js] eqn:Ej.
    + change (1 <=? len (@nil job)) with false. cbv beta iota.
      unfold ret, set_jobs. destruct st; cbn in *. subst. reflexivity.
    + rewrite len_cons. pose proof (len_nonneg js). zbool.
      assert (Hp : pop_job st = (set_jobs js st, Ok (Some j))).
      { unfold pop_job. mrun. rewrite Ej. reflexivity. }
      rewrite (bind_ok _ _ _ _ _ Hp).
      cbn [length] in H.
      rewrite (bind_ok _ _ _ _ _ (IH (set_jobs js st) ltac:(cbn; lia))).
      unfold ret, set_jobs. cbn [jobs]. reflexivity.
Qed.

Lemma print_jobs_fifo_witness :
  Nat.le (length (jobs (mkChannel 0 (mkSocket [] []) [] 0 (-1)
                         [(u"EVT", 1, u"hi"); (u"CMD", 2, u"go")]))) 3 /\
  print_jobs 3 (mkChannel 0 (mkSocket [] []) [] 0 (-1)
                  [(u"EVT", 1, u"hi"); (u"CMD", 2, u"go")]) =
  (mkChannel 0 (mkSocket [] []) [] 0 (-1) [],
   Ok [Some (u"EVT", 1, u"hi"); Some (u"CMD", 2, u"go")]).
Proof.
  split; [cbn; lia|].
  apply (print_jobs_fifo 3 (mkChannel 0 (mkSocket [] []) [] 0 (-1)
                              [(u"EVT", 1, u"hi"); (u"CMD", 2, u"go")])).
  cbn; lia.
Defined.

(** End to end: a sender calls [send_format] for the well-formed messages
    [js] in order; one receive trigger of an idle channel with the bytes
    written, followed by the demo's print loop, prints the messages already
    queued and then exactly [js], in order, and leaves the queue empty. *)
Theorem send_receive_print (js : list job) (sst rst : channel) :
  Forall (fun j => wf_job j = true) js -> idle rst ->
  exists bs,
    send_jobs js sst =
    (set_io (mkSocket (written (io sst) ++ bs) (incoming (io sst))) sst, Ok tt) /\
    (trigger bs;; print_jobs (length (jobs rst) + length js)) rst =
    (set_jobs [] rst, Ok (map Some (jobs rst ++ js))).
Proof.
  intros Hwf Hi. exists (frames_bytes js). split; [exact (send_jobs_spec js sst Hwf)|].
  pose proof (trigger_decoder (cnt rst) (written (io rst)) js js [] [] (frames_bytes js)
                [] (jobs rst) Hwf (pending_ok_nil js) (eq_sym (app_nil_r js))
                (eq_sym (app_nil_r _)) eq_refl) as T.
  rewrite <- (idle_decoder rst js Hi) in T. rewrite (idle_done rst js Hi) in T.
  rewrite (bind_ok _ _ _ _ _ T).
  rewrite print_jobs_spec by (cbn [jobs set_jobs]; rewrite length_app; lia).
  destruct rst. reflexivity.
Qed.

Lemma send_receive_print_witness :
  (Forall (fun j => wf_job j = true) [(u"CMD", 1, u"do it"); (u"ERR", 1, u"failure :-(")] /\
   idle (new_channel (mkSocket [] []))) /\
  exists bs,
    send_jobs [(u"CMD", 1, u"do it"); (u"ERR", 1, u"failure :-(")]
      (new_channel (mkSocket [] [])) =
    (set_io (mkSocket (written (io (new_channel (mkSocket [] []))) ++ bs)
                      (incoming (io (new_channel (mkSocket [] [])))))
            (new_channel (mkSocket [] [])), Ok tt) /\
    (trigger bs;; print_jobs (length (jobs (new_channel (mkSocket [] []))) + 2))
      (new_channel (mkSocket [] [])) =
    (set_jobs [] (new_channel (mkSocket [] [])),
     Ok (map Some (jobs (new_channel (mkSocket [] [])) ++
                   [(u"CMD", 1, u"do it"); (u"ERR", 1, u"failure :-(")]))).
Proof.
  split; [split; [repeat constructor | unfold idle; cbn; repeat split]|].
  apply (send_receive_print [(u"CMD", 1, u"do it"); (u"ERR", 1, u"failure :-(")]).
  - repeat constructor.
  - unfold idle; cbn; repeat split.
Defined.

(** A category that contains [':'] is never read back: the text
    [cat:num:msg] that [send_format] encodes is split at the first [':'],
    so when it is split without error the category found is the part [a] of
    [cat] before its first [':'], never [cat] itself. *)
Theorem colon_category_not_recovered (cat : text) (num : Z) (msg : text)
    (st st' : channel) (j : job) :
  existsb (Z.eqb SEPARATOR) cat = true ->
  split_message (body_text (cat, num, msg)) st = (st', Ok j) ->
  (exists a r, cat = a ++ SEPARATOR :: r /\ existsb (Z.eqb SEPARATOR) a = false /\
               fst (fst j) = a) /\
  fst (fst j) <> cat.
Proof.
  intros Hc H.
  destruct (find_from_spec SEPARATOR cat 0) as [[_ Hn]|[a [r [-> [Ha _]]]]];
    [congruence|].
  unfold body_text in H. rewrite <- app_assoc in H. cbn [Datatypes.app] in H.
  pose proof (split_message_cat a _ st st' j Ha H) as Hj.
  split; [exists a, r; auto|].
  rewrite Hj. intros E. apply (f_equal (@length Z)) in E.
  rewrite length_app in E. cbn [length] in E. lia.
Qed.

Lemma colon_category_not_recovered_witness :
  (existsb (Z.eqb SEPARATOR) (u"A:5") = true /\
   split_message (body_text (u"A:5", 7, u"x")) (new_channel (mkSocket [] [])) =
   (new_channel (mkSocket [] []), Ok (u"A", 5, u"7:x"))) /\
  (exists a r, u"A:5" = a ++ SEPARATOR :: r /\ existsb (Z.eqb SEPARATOR) a = false /\
               fst (fst (u"A", 5, u"7:x")) = a) /\
  fst (fst (u"A", 5, u"7:x")) <> u"A:5".
Proof.
  assert (H : split_message (body_text (u"A:5", 7, u"x")) (new_channel (mkSocket [] [])) =
              (new_channel (mkSocket [] []), Ok (u"A", 5, u"7:x"))).
  { vm_compute. reflexivity. }
  split; [split; [reflexivity | exact H]|].
  exact (colon_category_not_recovered (u"A:5") 7 (u"x") _ _ _ eq_refl H).
Defined.
